(** * sphinxcontrib.autophpdoc: a shallow embedding and its properties

    The development follows [sphinxcontrib/autophpdoc/__init__.py]:
    the text normalisers ([trim], [strip_braces], [bs]), the option lookup
    of the directive ([get_opt]), the renderers ([Subject] and its
    subclasses), and the selection loop of [AutoDirective.run].

    Python strings are sequences of Unicode code points; they are
    modelled as lists of [N].  Dictionaries and sets are stdpp's [gmap]
    and [gset].  Code that raises is modelled with an explicit result
    type, code that mutates the line buffer or the module-level set
    [seen_namespaces] with explicit state passing.  The XML parser, the
    regular expressions behind the patterns of the directive, and what the
    XPath engine makes of a pattern that changes the query it is pasted
    into, are parameters of the renderers. *)

From Stdlib Require Import ZArith NArith String Ascii List Lia.
From Stdlib Require Import DecimalString.
From stdpp Require Import gmap list sorting.

Local Open Scope N_scope.
Local Set Warnings "-clear-no-such-hyp".

(** ** Strings *)

Abbreviation str := (list N).

(** A string literal of the source, as code points. *)
Definition lit (s : string) : str := map N_of_ascii (list_ascii_of_string s).

(** [str.isspace] on one character, which is also what [\s] matches in a
    [str] pattern of the [re] module. *)
Definition isspace (c : N) : bool :=
  ((9 <=? c) && (c <=? 13)) || ((28 <=? c) && (c <=? 32))
  || (c =? 133) || (c =? 160) || (c =? 5760)
  || ((8192 <=? c) && (c <=? 8202))
  || (c =? 8232) || (c =? 8233) || (c =? 8239) || (c =? 8287) || (c =? 12288).

Definition eqc (a b : N) : bool := a =? b.

Fixpoint startswith (p s : str) : bool :=
  match p, s with
  | [], _ => true
  | a :: p', b :: s' => eqc a b && startswith p' s'
  | _ :: _, [] => false
  end.

(** [s.lstrip (chars)], [s.rstrip (chars)] and [s.strip ()], with the set
    of stripped characters as a predicate. *)
Fixpoint lstrip_by (f : N -> bool) (s : str) : str :=
  match s with
  | [] => []
  | c :: r => if f c then lstrip_by f r else s
  end.

Fixpoint rstrip_by (f : N -> bool) (s : str) : str :=
  match s with
  | [] => []
  | c :: r =>
      match rstrip_by f r with
      | [] => if f c then [] else [c]
      | r' => c :: r'
      end
  end.

Definition strip (s : str) : str := rstrip_by isspace (lstrip_by isspace s).

(** The length of the longest prefix of [s] whose characters satisfy [f]. *)
Fixpoint span_len (f : N -> bool) (s : str) : nat :=
  match s with
  | [] => O
  | c :: r => if f c then S (span_len f r) else O
  end.

(** ** Regular expression substitution

    [pattern.sub (repl, text)] scans [text] from the left; where the
    pattern matches it emits [repl] and goes on after the match, elsewhere
    it copies one character.  A pattern is given by its matcher: the length
    of the match that starts at the head of the rest of the text.  None of
    the three patterns of the module matches the empty string. *)
Fixpoint re_sub (m : str -> option nat) (repl : str) (skip : nat) (s : str) : str :=
  match s with
  | [] => []
  | c :: r =>
      match skip with
      | S k => re_sub m repl k r
      | O =>
          match m s with
          | Some (S k) => repl ++ re_sub m repl k r
          | _ => c :: re_sub m repl O r
          end
      end
  end.

(** [RE_TRIM = re.compile (r'(</?p>)')] *)
Definition RE_TRIM (s : str) : option nat :=
  if startswith (lit "<p>") s then Some 3%nat
  else if startswith (lit "</p>") s then Some 4%nat
  else None.

(** [RE_WS = re.compile (r'(\s+)')]: a maximal run of white space. *)
Definition RE_WS (s : str) : option nat :=
  match span_len isspace s with
  | O => None
  | n => Some n
  end.

(** The position after the last [)] of [s] before the first line feed,
    if there is one: what the greedy [.*\)] consumes ([.] matches every
    character but the line feed). *)
Fixpoint last_paren (s : str) : option nat :=
  match s with
  | [] => None
  | c :: r =>
      if eqc c 10 then None
      else match last_paren r with
           | Some n => Some (S n)
           | None => if eqc c 41 then Some 1%nat else None
           end
  end.

(** [RE_BRACES = re.compile (r'(\s*\(.*\))')]: white space, an opening
    parenthesis, and everything up to the last closing parenthesis of the
    line. *)
Definition RE_BRACES (s : str) : option nat :=
  let k := span_len isspace s in
  match drop k s with
  | c :: r =>
      if eqc c 40 then
        match last_paren r with
        | Some n => Some (k + 1 + n)%nat
        | None => None
        end
      else None
  | [] => None
  end.

(** [def trim (text)] *)
Definition trim (text : str) : str :=
  let text := re_sub RE_TRIM [] 0 text in
  re_sub RE_WS (lit " ") 0 (strip text).

(** [def strip_braces (text)] *)
Definition strip_braces (text : str) : str :=
  re_sub RE_BRACES [] 0 text.

(** [str.replace] of one character by a string. *)
Fixpoint replace_char (c : N) (by_ : str) (s : str) : str :=
  match s with
  | [] => []
  | x :: r => (if eqc x c then by_ else [x]) ++ replace_char c by_ r
  end.

(** [def bs (link)]: 92 is the backslash. *)
Definition bs (link : str) : str :=
  let link := lstrip_by (eqc 92) link in
  replace_char 92 [92; 92] link.

(** ** Predicates on texts used in the statements *)

(** Some suffix of [s] starts with a non-empty match of [m]. *)
Fixpoint has_match (m : str -> option nat) (s : str) : bool :=
  match s with
  | [] => false
  | _ :: r => match m s with Some (S _) => true | _ => false end || has_match m r
  end.

(** [p] occurs in [s] as a contiguous substring. *)
Definition contains (p s : str) : Prop := exists a c, s = a ++ p ++ c.

(** White space in normal form: the text neither starts nor ends with
    white space, and all its white space is single blanks. *)
Definition head_ok (s : str) : bool :=
  match s with
  | c :: _ => negb (isspace c)
  | [] => true
  end.

Fixpoint last_ok (s : str) : bool :=
  match s with
  | [] => true
  | c :: r => match r with [] => negb (isspace c) | _ => last_ok r end
  end.

Fixpoint is_norm (s : str) : bool :=
  match s with
  | [] => true
  | c :: r =>
      (if isspace c
       then eqc c 32 && match r with d :: _ => negb (isspace d) | [] => false end
       else true) && is_norm r
  end.

Abbreviation RE_WS_sub := (re_sub RE_WS (lit " ") 0).

(** The words of the specification: [s] ends with a parenthesised
    argument list. *)
Definition paren_suffix (s : str) : Prop :=
  exists p a, s = p ++ 40 :: a ++ [41].

(** [s] has, somewhere, an opening parenthesis followed on the same line
    by a closing one. *)
Definition paren_group (s : str) : Prop :=
  exists a b c, s = a ++ 40 :: b ++ 41 :: c /\ ~ In 10 b.

(** ** More string operations of the Python library *)

(** [sep.join (l)] *)
Fixpoint join (sep : str) (l : list str) : str :=
  match l with
  | [] => []
  | [x] => x
  | x :: r => x ++ sep ++ join sep r
  end.

(** [c * n] for a one-character string [c] *)
Definition repeat_char (c : N) (n : nat) : str := repeat c n.

(** ['%d' % z] *)
Definition dec (z : Z) : str := lit (NilZero.string_of_int (Z.to_int z)).

(** The line boundaries of [str.splitlines]. *)
Definition is_linebreak (c : N) : bool :=
  ((10 <=? c) && (c <=? 13)) || ((28 <=? c) && (c <=? 30))
  || (c =? 133) || (c =? 8232) || (c =? 8233).

(** [text.splitlines ()]: [cur] is the line read so far, [after_cr] says
    that the last character was a carriage return, which a line feed
    completes to one boundary. *)
Fixpoint splitlines_aux (after_cr : bool) (cur s : str) : list str :=
  match s with
  | [] => match cur with [] => [] | _ => [cur] end
  | c :: r =>
      if after_cr && eqc c 10 then splitlines_aux false cur r
      else if is_linebreak c then cur :: splitlines_aux (eqc c 13) [] r
      else splitlines_aux false (cur ++ [c]) r
  end.

Definition py_splitlines (s : str) : list str := splitlines_aux false [] s.

(** [s.rfind (c)] for a character [c]: the last index of [c], if any. *)
Fixpoint rfind (c : N) (s : str) : option nat :=
  match s with
  | [] => None
  | x :: r =>
      match rfind c r with
      | Some i => Some (S i)
      | None => if eqc x c then Some 0%nat else None
      end
  end.

(** [os.path.splitext (p)[0]] of [posixpath]: the extension starts at the
    last dot of the last path component, leading dots of the component
    apart. *)
Definition splitext_root (p : str) : str :=
  match rfind 46 p with
  | None => p
  | Some dotIndex =>
      let filenameIndex :=
        match rfind 47 p with Some sepIndex => S sepIndex | None => 0%nat end in
      if existsb (fun c => negb (eqc c 46))
                 (take (dotIndex - filenameIndex) (drop filenameIndex p))
      then take dotIndex p
      else p
  end.

(** [s.split (',')] *)
Fixpoint split_aux (c : N) (cur s : str) : list str :=
  match s with
  | [] => [cur]
  | x :: r => if eqc x c then cur :: split_aux c [] r else split_aux c (cur ++ [x]) r
  end.

Definition py_split (c : N) (s : str) : list str := split_aux c [] s.

(** The strings of ASCII digits, on which Python's [int] is the usual
    reading of a decimal numeral; used for the line numbers of examples. *)
Fixpoint int_digits (acc : Z) (s : str) : option Z :=
  match s with
  | [] => Some acc
  | c :: r =>
      if (48 <=? c) && (c <=? 57)
      then int_digits (10 * acc + Z.of_N (c - 48))%Z r
      else None
  end.

Definition int_ascii (s : str) : option Z :=
  match s with
  | [] => None
  | _ => int_digits 0%Z s
  end.

(** The order of [str]: lexicographic on the code points. *)
Fixpoint str_leb (a b : str) : bool :=
  match a, b with
  | [], _ => true
  | _ :: _, [] => false
  | x :: a', y :: b' => (x <? y) || (eqc x y && str_leb a' b')
  end.

Definition str_le (a b : str) : Prop := str_leb a b = true.

Global Instance str_le_dec a b : Decision (str_le a b).
Proof. unfold str_le. apply _. Defined.

(** ** Values, exceptions and the state of a build *)

(** The Python values an option or a configuration setting can hold. *)
Inductive value : Type :=
  | VNone
  | VBool (b : bool)
  | VStr (s : str)
  | VList (l : list str).

(** Truth of a value, as [if], [or] and [not] test it. *)
Definition truthy (v : value) : bool :=
  match v with
  | VNone => false
  | VBool b => b
  | VStr s => match s with [] => false | _ => true end
  | VList l => match l with [] => false | _ => true end
  end.

(** [v is True] *)
Definition is_True (v : value) : bool :=
  match v with
  | VBool true => true
  | _ => false
  end.

(** The exceptions of an invocation; [ReError] is [re.error], [LxmlError]
    stands for [etree.LxmlError] and its subclasses, among them
    [XPathEvalError]. *)
Inductive exn : Type :=
  | TypeError
  | AttributeError
  | ValueError
  | OSError
  | KeyError
  | ReError
  | LxmlError
  | AutoPHPDocError (msg : str).

Abbreviation result := (sum exn).

(** One entry of the line buffer ([docutils.statemachine.StringList]):
    the text of the line and its source. *)
Abbreviation line := (str * str)%type.

(** The line buffer [content] of an invocation and the module-level set
    [seen_namespaces], which lives as long as the build. *)
Record state : Type := State {
  content : list line;
  seen_namespaces : gset str
}.

(** Computations that read and write the state and may raise; what was
    written before an exception stays written. *)
Definition M (A : Type) : Type := state -> result A * state.

Definition ret {A} (a : A) : M A := fun st => (inr a, st).

Definition raise {A} (e : exn) : M A := fun st => (inl e, st).

Definition bind {A B} (m : M A) (k : A -> M B) : M B :=
  fun st =>
    match m st with
    | (inr a, st') => k a st'
    | (inl e, st') => (inl e, st')
    end.

Definition lift {A} (r : result A) : M A := fun st => (r, st).

Notation "'let!' x ':=' m 'in' k" := (bind m (fun x => k))
  (at level 10, x name, m at level 100, k at level 200).
Notation "m ;; k" := (bind m (fun _ => k))
  (at level 100, k at level 200, right associativity).

(** [for x in l: body (x)] *)
Fixpoint for_ {A} (l : list A) (body : A -> M unit) : M unit :=
  match l with
  | [] => ret tt
  | x :: r => body x ;; for_ r body
  end.

(** [content.append (text, source)] *)
Definition content_append (text source : str) : M unit :=
  fun st => (inr tt, State (content st ++ [(text, source)]) (seen_namespaces st)).

(** ** The structure tree

    An element of the parsed [structure.xml], as [lxml] presents it: its
    tag, its attributes, the text before its first child, its children and
    the text after its end tag; an absent text is the empty string. *)
#[warnings="-register-all"] Inductive element : Type := Element {
  tag : str;
  attrib : gmap str str;
  text : str;
  children : list element;
  tail : str
}.

(** An element together with its ancestors, the parent first: [lxml]
    elements know their parent. *)
Record xnode : Type := XNode {
  el : element;
  ancestors : list element
}.

(** [etree.tostring (e, encoding = 'unicode', method = 'text')]: all the
    text inside the element, and its tail. *)
Fixpoint tostring_text (e : element) : str :=
  text e
  ++ (fix go (l : list element) : str :=
        match l with
        | [] => []
        | c :: l' => tostring_text c ++ go l'
        end) (children e)
  ++ tail e.

(** The XPath steps the module uses.  [child_step t] is the step [t],
    [attr_step a] is [@a], [with_attr a v] the predicate [[@a='v']],
    [text_step] is [text ()]; results are in document order. *)
Definition child_nodes (n : xnode) : list xnode :=
  map (fun c => XNode c (el n :: ancestors n)) (children (el n)).

Definition child_step (t : str) (ns : list xnode) : list xnode :=
  flat_map (fun n => filter (fun c => tag (el c) = t) (child_nodes n)) ns.

Definition attr_step (a : str) (ns : list xnode) : list str :=
  omap (fun n => attrib (el n) !! a) ns.

Definition with_attr (a v : str) (ns : list xnode) : list xnode :=
  filter (fun n => attrib (el n) !! a = Some v) ns.

Definition nonempty (s : str) : list str :=
  match s with [] => [] | _ => [s] end.

Definition text_step (ns : list xnode) : list str :=
  flat_map (fun n => nonempty (text (el n))
                     ++ flat_map (fun c => nonempty (tail c)) (children (el n))) ns.

(** The result of an XPath query: elements, or strings (attribute values
    and text nodes, plain [str] under [smart_strings = False]). *)
Inductive xresult : Type :=
  | XElems (l : list xnode)
  | XStrs (l : list str).

(** ** The directive: options and configuration *)

(** [NAME = 'autophpdoc'] *)
Definition NAME : str := lit "autophpdoc".

(** The three settings [setup] registers with [app.add_config_value]. *)
Record Config : Type := {
  autophpdoc_structure_xml : value;
  autophpdoc_members : value;
  autophpdoc_title : value
}.

(** [getattr (self.env.config, attr)]: a setting that is not registered
    raises [AttributeError]. *)
Definition getattr (cfg : Config) (attr : str) : result value :=
  if decide (attr = lit "autophpdoc_structure_xml") then inr (autophpdoc_structure_xml cfg)
  else if decide (attr = lit "autophpdoc_members") then inr (autophpdoc_members cfg)
  else if decide (attr = lit "autophpdoc_title") then inr (autophpdoc_title cfg)
  else inl AttributeError.

(** [def members_option (arg)] *)
Definition members_option (arg : value) : result value :=
  match arg with
  | VNone | VBool true => inr (VBool true)
  | VBool false => inr (VBool false)
  | VStr s => inr (VList (map strip (py_split 44 s)))
  | VList _ => inl AttributeError
  end.

(** [def bool_option (arg)] *)
Definition bool_option (arg : value) : value := VBool true.

(** The state of an [AutoDirective] that the renderers read: its name,
    arguments and options, the configuration of the build, and the four
    sets of names [run] builds. *)
Record AutoDirective : Type := {
  name : str;
  arguments : list str;
  options : gmap str value;
  config : Config;
  functions : gset str;
  classes : gset str;
  methods : gset str;
  properties : gset str
}.

(** [self.options.get (name)] *)
Definition options_get (d : AutoDirective) (opt : str) : value :=
  default VNone (options d !! opt).

Definition required_msg (opt : str) : str :=
  lit ":" ++ opt ++ lit ": option required in directive (or set "
  ++ NAME ++ lit "_" ++ opt ++ lit " in conf.py).".

(** [def get_opt (self, name, required = False)]; the right operand of
    [or] is evaluated only where the left one is false. *)
Definition get_opt (d : AutoDirective) (opt : str) (required : bool) : result value :=
  let o := options_get d opt in
  match (if truthy o then inr o else getattr (config d) (NAME ++ lit "_" ++ opt)) with
  | inl e => inl e
  | inr v =>
      if required && negb (truthy v)
      then inl (AutoPHPDocError (required_msg opt))
      else inr v
  end.

(** ** Subjects: the things to document *)

Record Subject : Type := {
  node : xnode;
  indent : nat;
  directive : AutoDirective
}.

Definition with_indent (s : Subject) (n : nat) : Subject :=
  {| node := node s; indent := n; directive := directive s |}.

(** [self.node.get (key)] *)
Definition node_get (s : Subject) (key : str) : option str :=
  attrib (el (node s)) !! key.

(** [def xpath_str (self, query, default)], on the result of the query:
    the text of the first element, or the first string, stripped. *)
Definition xpath_str (r : xresult) (default : str) : str :=
  match r with
  | XElems [] | XStrs [] => default
  | XElems (n :: _) => strip (tostring_text (el n))
  | XStrs (x :: _) => strip x
  end.

(** [def splitlines (self, text)] *)
Definition splitlines (s : Subject) (text : str) : list str :=
  map (fun l => repeat_char 32 (indent s) ++ l) (py_splitlines text).

(** [ancestor-or-self::file/@path], in document order: the outermost
    [file] first. *)
Definition file_paths (n : xnode) : list str :=
  omap (fun e => if decide (tag e = lit "file") then attrib e !! lit "path" else None)
       (rev (ancestors n) ++ [el n]).

(** [def get_filename (self)] *)
Definition get_filename (s : Subject) : str :=
  xpath_str (XStrs (file_paths (node s))) (lit "filename unknown").

Definition get_description (s : Subject) : str :=
  xpath_str (XElems (child_step (lit "description")
                       (child_step (lit "docblock") [node s]))) [].

Definition get_long_description (s : Subject) : str :=
  xpath_str (XElems (child_step (lit "long-description")
                       (child_step (lit "docblock") [node s]))) [].

Definition get_name (s : Subject) : str :=
  xpath_str (XElems (child_step (lit "name") [node s])) [].

Definition get_value (s : Subject) : str :=
  xpath_str (XElems (child_step (lit "value") [node s])) [].

Definition get_full_name (s : Subject) : str :=
  xpath_str (XElems (child_step (lit "full_name") [node s])) [].

(** [docblock/tag[@name='...']] *)
Definition docblock_tags (s : Subject) (kind : str) : list xnode :=
  with_attr (lit "name") kind
    (child_step (lit "tag") (child_step (lit "docblock") [node s])).

Definition get_type (s : Subject) : str :=
  xpath_str (XStrs (attr_step (lit "type") (docblock_tags s (lit "var")))) [].

Definition get_namespace (s : Subject) : str :=
  xpath_str (XStrs (attr_step (lit "namespace") [node s])) [].

(** [def xref (self, link)] *)
Definition xref (s : Subject) (link : str) : str :=
  match link with
  | [] => []
  | _ =>
      let what :=
        if decide (link ∈ classes (directive s)) then lit "php:class"
        else if decide (link ∈ functions (directive s)) then lit "php:func"
        else if decide (link ∈ methods (directive s)) then lit "php:meth"
        else if decide (link ∈ properties (directive s)) then lit "php:attr"
        else lit "ref" in
      let link := bs link in
      if decide (what <> lit "ref")
      then lit ":" ++ what ++ lit ":`" ++ link ++ lit "`"
      else link
  end.

(** [trim] applied to the result of [node.get]: the regular expression
    raises [TypeError] on [None]. *)
Definition trim_py (v : option str) : result str :=
  match v with
  | Some x => inr (trim x)
  | None => inl TypeError
  end.

(** The provenance of line [lineno] of a text appended for a node of
    [filename] whose source line is [sourceline]:
    ['%s:%d:<%s>' % (filename, sourceline + lineno, NAME)]. *)
Definition source_tag (filename : str) (sourceline : Z) (lineno : nat) : str :=
  filename ++ lit ":" ++ dec (sourceline + Z.of_nat lineno) ++ lit ":<" ++ NAME ++ lit ">".

Section Renderers.

(** Python's [int] on a string; [None] stands for [ValueError]. *)
Variable py_int : str -> option Z.

Definition int_py (x : str) : result Z :=
  match py_int x with
  | Some z => inr z
  | None => inl ValueError
  end.

(** [def get_lineno (self)]; where there is no [docblock/@line] the
    default ['0'] is converted, which gives 0. *)
Definition get_lineno (s : Subject) : result Z :=
  match node_get s (lit "line") with
  | Some l => int_py l
  | None =>
      match attr_step (lit "line") (child_step (lit "docblock") [node s]) with
      | [] => inr 0%Z
      | l :: _ => int_py (strip l)
      end
  end.

(** [def append (self, text, content)], for a [text] that is a string. *)
Definition append (s : Subject) (text : str) : M unit :=
  let! sourceline := lift (get_lineno s) in
  for_ (imap (fun lineno l => (l, source_tag (get_filename s) sourceline lineno))
             (splitlines s text))
       (fun '(l, src) => content_append l src).

(** [def nl (self, content)] *)
Definition nl (s : Subject) : M unit := content_append [] [].

(** [def append_ns (self, content)] *)
Definition append_ns (s : Subject) : M unit :=
  let ns := get_namespace s in
  append s (lit ".. php:namespace:: " ++ ns) ;;
  (fun st =>
     if decide (ns ∈ seen_namespaces st)
     then append s (lit "   :noindex:") st
     else (inr tt, State (content st) ({[ ns ]} ∪ seen_namespaces st))) ;;
  nl s.

(** [class PHPSee] *)
Definition PHPSee_run (s : Subject) : M unit :=
  let! desc := lift (trim_py (node_get s (lit "description"))) in
  match node_get s (lit "link") with
  | None => raise AttributeError
  | Some link =>
      (if startswith (lit "http") link
       then append s (lit "See: " ++ link ++ lit " " ++ desc)
       else append s (lit "See: " ++ xref s link ++ lit " " ++ desc)) ;;
      nl s
  end.

(** [def append_desc (self, content)] *)
Definition append_desc (s : Subject) : M unit :=
  append s (get_description s) ;;
  nl s ;;
  append s (get_long_description s) ;;
  nl s ;;
  for_ (docblock_tags s (lit "see"))
       (fun n => PHPSee_run {| node := n; indent := indent s;
                               directive := directive s |} ;;
                 nl s).

(** [def underscore (self, text, char, content)] *)
Definition underscore (s : Subject) (text : str) (char : N) : M unit :=
  append s text ;;
  append s (repeat_char char (length text)) ;;
  nl s.

(** [class PHPArgument] *)
Definition PHPArgument_run (s : Subject) : M unit :=
  let! name := lift (trim_py (node_get s (lit "variable"))) in
  let! type_ := lift (trim_py (node_get s (lit "type"))) in
  let! desc := lift (trim_py (node_get s (lit "description"))) in
  append s (lit ":param " ++ bs type_ ++ lit " " ++ name ++ lit ": " ++ desc).

(** [class PHPReturn] *)
Definition PHPReturn_run (s : Subject) : M unit :=
  let! type_ := lift (trim_py (node_get s (lit "type"))) in
  let! desc := lift (trim_py (node_get s (lit "description"))) in
  (match desc with
   | [] => ret tt
   | _ => append s (lit ":returns: " ++ desc)
   end) ;;
  match type_ with
  | [] => ret tt
  | _ => append s (lit ":rtype: " ++ xref s type_)
  end.

(** [class PHPThrows]; [node.get ('description') or ''] *)
Definition PHPThrows_run (s : Subject) : M unit :=
  let! type_ := lift (trim_py (node_get s (lit "type"))) in
  let desc := trim (default [] (node_get s (lit "description"))) in
  append s (lit ":raises " ++ xref s type_ ++ lit ": " ++ desc).

(** [class PHPVariable] *)
Definition PHPVariable_run (s : Subject) : M unit :=
  let type_ := get_type s in
  (match type_ with
   | [] => ret tt
   | _ => append s (lit "(" ++ xref s type_ ++ lit ")")
   end) ;;
  append_desc s.

(** [class PHPConstant] *)
Definition PHPConstant_run (s : Subject) : M unit :=
  append_ns s ;;
  append s (lit ".. php:const:: " ++ get_name s) ;;
  nl s ;;
  let s := with_indent s (indent s + 3) in
  append s (get_value s) ;;
  nl s ;;
  PHPVariable_run s.

(** [class PHPProperty] *)
Definition PHPProperty_run (s : Subject) : M unit :=
  append s (lit ".. php:attr:: " ++ get_name s) ;;
  nl s ;;
  let s := with_indent s (indent s + 3) in
  PHPVariable_run s.

(** [def get_signature (self)] of [class PHPCallable] *)
Definition get_signature (s : Subject) : str :=
  let args := text_step (child_step (lit "name")
                           (child_step (lit "argument") [node s])) in
  get_name s ++ lit " (" ++ join (lit ", ") args ++ lit ")".

Definition sub (s : Subject) (n : xnode) : Subject :=
  {| node := n; indent := indent s; directive := directive s |}.

(** [def run (self, content)] of [class PHPCallable] *)
Definition PHPCallable_run (s : Subject) : M unit :=
  let s := with_indent s (indent s + 3) in
  append_desc s ;;
  for_ (docblock_tags s (lit "param")) (fun n => PHPArgument_run (sub s n)) ;;
  for_ (docblock_tags s (lit "return")) (fun n => PHPReturn_run (sub s n)) ;;
  for_ (docblock_tags s (lit "throws")) (fun n => PHPThrows_run (sub s n)) ;;
  nl s.

(** [class PHPFunction] *)
Definition PHPFunction_run (s : Subject) : M unit :=
  append_ns s ;;
  append s (lit ".. php:function:: " ++ get_signature s) ;;
  nl s ;;
  PHPCallable_run s.

(** [class PHPMethod] *)
Definition PHPMethod_run (s : Subject) : M unit :=
  append s (lit ".. php:method:: " ++ get_signature s) ;;
  nl s ;;
  PHPCallable_run s.

(** [class PHPClass] *)
Definition PHPClass_run (s : Subject) : M unit :=
  append_ns s ;;
  append s (lit ".. php:class:: " ++ get_name s) ;;
  nl s ;;
  let s := with_indent s (indent s + 3) in
  append_desc s ;;
  for_ (child_step (lit "property") [node s]) (fun n => PHPProperty_run (sub s n)) ;;
  for_ (child_step (lit "method") [node s]) (fun n => PHPMethod_run (sub s n)) ;;
  nl s.

(** [def get_name (self)] of [class PHPModule] *)
Definition PHPModule_get_name (s : Subject) : str :=
  xpath_str (XStrs (attr_step (lit "path") [node s])) [].

(** The recursion of [PHPModule.run] into the members of the module. *)
Definition PHPModule_members (s : Subject) : M unit :=
  for_ (child_step (lit "constant") [node s]) (fun n => PHPConstant_run (sub s n)) ;;
  for_ (child_step (lit "function") [node s]) (fun n => PHPFunction_run (sub s n)) ;;
  for_ (child_step (lit "class") [node s]) (fun n => PHPClass_run (sub s n)).

(** [def run (self, content)] of [class PHPModule] *)
Definition PHPModule_run (s : Subject) : M unit :=
  let filename := PHPModule_get_name s in
  let module := replace_char 47 [46] (splitext_root filename) in
  append s (lit ".. module:: " ++ module) ;;
  nl s ;;
  let! title := lift (get_opt (directive s) (lit "title") false) in
  (if truthy title
   then underscore s (PHPModule_get_name s) 45 ;; nl s
   else ret tt) ;;
  append_desc s ;;
  let! members := lift (get_opt (directive s) (lit "members") false) in
  (if is_True members then PHPModule_members s else ret tt) ;;
  nl s.

(** ** The directive's [run] *)

(** The regular expressions of the EXSLT function [re:test] of the XPath
    engine, which [lxml] hands to Python's [re]: [re.compile (pattern)]
    with the [search] of the compiled expression, [None] where the pattern
    is no regular expression ([re.error]). *)
Variable re_compile : str -> option (str -> bool).

(** What the XPath engine makes of the query for an argument that is
    neither [plain] nor [unfinished] (see below): its exception, an invalid
    expression being an [LxmlError], or the nodes it selects. *)
Variable xpath_other : element -> str -> result (list xnode).

(** [etree.parse (structure_xml)]: the root element of the parsed file,
    or the exception of the parser. *)
Variable etree_parse : value -> result element.

(** All the elements of the tree, in document order. *)
Fixpoint descendants (anc : list element) (e : element) : list xnode :=
  XNode e anc :: flat_map (descendants (e :: anc)) (children e).

(** [//kind/full_name/text ()] *)
Definition full_names (tree : element) (kind : str) : list str :=
  text_step (child_step (lit "full_name")
               (filter (fun n => tag (el n) = kind) (descendants [] tree))).

(** The set of the names of one kind, and with [braces] also their
    forms without braces. *)
Definition index_plain (tree : element) (kind : str) : gset str :=
  list_to_set (full_names tree kind).

Definition index_braces (tree : element) (kind : str) : gset str :=
  let names := index_plain tree kind in
  foldl (fun acc k => {[ strip_braces k ]} ∪ acc) names (elements names).

(** [self.node.get ('path')] of a file node *)
Definition path_of (n : xnode) : option str := attrib (el n) !! lit "path".

(** The characters that stand for themselves in the string literal of
    the query: the printable ASCII characters but the apostrophe, which
    ends the literal, and the characters from 160 up to the surrogates. *)
Definition plain_char (c : N) : bool :=
  ((32 <=? c) && (c <=? 126) && negb (c =? 39))
  || ((160 <=? c) && (c <? 55296)).

Definition plain (argument : str) : bool := forallb plain_char argument.

(** An argument of plain characters but the quotation mark, and of
    apostrophes in odd number: pasted between the two apostrophes of the
    query, the last apostrophe opens a literal that nothing closes. *)
Definition apostrophes (argument : str) : nat :=
  length (filter (fun c => c = 39) argument).

Definition unfinished (argument : str) : bool :=
  forallb (fun c => (plain_char c && negb (c =? 34)) || (c =? 39)) argument
  && Nat.odd (apostrophes argument).

(** [//file] *)
Definition file_nodes (tree : element) : list xnode :=
  filter (fun n => tag (el n) = lit "file") (descendants [] tree).

(** [tree.xpath ("//file[re:test (@path, '%s')]" % argument)].  The
    argument is pasted into the literal.  For a plain argument the query
    tests the [path] of every [file] element with the regular expression,
    the string value of an absent attribute being the empty string; the
    expression is compiled when the first file is tested, so a pattern
    that is no regular expression raises [re.error] where the tree has a
    file.  With an unfinished literal the query is no XPath expression:
    the engine raises [XPathEvalError], an [LxmlError], before it looks at
    the tree.  For any other argument the result is the engine's. *)
Definition xpath_files (tree : element) (argument : str) : result (list xnode) :=
  if plain argument then
    match re_compile argument with
    | Some search =>
        inr (filter (fun n => tag (el n) = lit "file"
                              /\ search (default [] (path_of n)) = true)
                    (descendants [] tree))
    | None =>
        match file_nodes tree with
        | [] => inr []
        | _ => inl ReError
        end
    end
  else if unfinished argument then inl LxmlError
  else xpath_other tree argument.

(** [filenodes[node.get ('path')] = node] for the nodes in turn. *)
Definition filenodes_of (ns : list xnode) : gmap (option str) xnode :=
  foldl (fun m n => <[ path_of n := n ]> m) ∅ ns.

(** [sorted (keys)] on the keys of [filenodes]: strings and, for a file
    without [path], [None]; [None] is not comparable with a string. *)
Definition py_sorted (keys : list (option str)) : result (list (option str)) :=
  match keys with
  | [] | [_] => inr keys
  | _ =>
      if forallb (fun k => match k with Some _ => true | None => false end) keys
      then inr (map Some (merge_sort str_le (omap id keys)))
      else inl TypeError
  end.

(** [RE_AUTOSTRIP.sub ('', self.name)], [RE_AUTOSTRIP] being
    [^php:auto]. *)
Definition objtype_of (directive_name : str) : str :=
  if startswith (lit "php:auto") directive_name
  then drop 8 directive_name
  else directive_name.

(** The four [if objtype == ...] of the loop. *)
Definition dispatch (d : AutoDirective) (objtype : str) (n : xnode) : M unit :=
  let s := {| node := n; indent := 0; directive := d |} in
  (if decide (objtype = lit "module") then PHPModule_run s else ret tt) ;;
  (if decide (objtype = lit "class") then PHPClass_run s else ret tt) ;;
  (if decide (objtype = lit "method") then PHPMethod_run s else ret tt) ;;
  (if decide (objtype = lit "function") then PHPFunction_run s else ret tt).

(** [for path in sorted (filenodes.keys ())], with the set [visited]. *)
Fixpoint paths_loop (render : xnode -> M unit) (filenodes : gmap (option str) xnode)
    (paths : list (option str)) (visited : gset (option str))
    : M (gset (option str)) :=
  match paths with
  | [] => ret visited
  | path :: rest =>
      if decide (path ∈ visited) then paths_loop render filenodes rest visited
      else
        let visited := {[ path ]} ∪ visited in
        match filenodes !! path with
        | None => raise KeyError
        | Some n => render n ;; paths_loop render filenodes rest visited
        end
  end.

(** [for argument in self.arguments] *)
Fixpoint arguments_loop (render : xnode -> M unit) (tree : element)
    (args : list str) (visited : gset (option str)) : M (gset (option str)) :=
  match args with
  | [] => ret visited
  | argument :: rest =>
      let! nodes := lift (xpath_files tree argument) in
      let filenodes := filenodes_of nodes in
      let! paths := lift (py_sorted (map fst (map_to_list filenodes))) in
      let! visited := paths_loop render filenodes paths visited in
      arguments_loop render tree rest visited
  end.

(** What an invocation hands to the document pipeline: the line buffer,
    or nothing where an error of the XML library was logged. *)
Inductive outcome : Type :=
  | Rendered (lines : list line)
  | Logged.

(** The directive with the sets of names of the tree. *)
Definition with_index (d : AutoDirective) (tree : element) : AutoDirective :=
  {| name := name d; arguments := arguments d; options := options d;
     config := config d;
     functions := index_braces tree (lit "function");
     classes := index_plain tree (lit "class");
     methods := index_braces tree (lit "method");
     properties := index_plain tree (lit "property") |}.

(** [def run (self)] of [class AutoDirective], from the registry [seen]
    of the build: the outcome and the registry afterwards.  The line
    buffer starts empty. *)
Definition run (d : AutoDirective) (seen : gset str) : result outcome * gset str :=
  match get_opt d (lit "structure_xml") false with
  | inl e => (inl e, seen)
  | inr structure_xml =>
      let objtype := objtype_of (name d) in
      match etree_parse structure_xml with
      | inl LxmlError => (inr Logged, seen)
      | inl e => (inl e, seen)
      | inr tree =>
          let d := with_index d tree in
          match arguments_loop (dispatch d objtype) tree (arguments d) ∅
                               (State [] seen) with
          | (inr _, st) => (inr (Rendered (content st)), seen_namespaces st)
          | (inl LxmlError, st) => (inr Logged, seen_namespaces st)
          | (inl e, st) => (inl e, seen_namespaces st)
          end
      end
  end.

(** *** The selection, in the words of the specification

    The match set of a pattern: the nodes its query returns; the paths of
    the match set; for a path, the last file of the match set with this
    path; for a pattern, the files of its paths, each path once, in
    lexicographic order, those left out that the match set of an earlier
    pattern has; and the blocks of the patterns in their order. *)
Definition query_nodes (tree : element) (a : str) : list xnode :=
  match xpath_files tree a with
  | inr nodes => nodes
  | inl _ => []
  end.

(** The query of the pattern raises nothing, and every node of its match
    set has a [path]. *)
Definition query_ok (tree : element) (a : str) : Prop :=
  (exists nodes, xpath_files tree a = inr nodes)
  /\ forall n, n ∈ query_nodes tree a -> is_Some (path_of n).

Definition matched_paths (tree : element) (a : str) : list str :=
  omap path_of (query_nodes tree a).

Definition last_match (tree : element) (a : str) (p : str) : option xnode :=
  last (filter (fun n => path_of n = Some p) (query_nodes tree a)).

Definition sorted_paths (tree : element) (a : str) : list str :=
  merge_sort str_le (remove_dups (matched_paths tree a)).

Definition block (tree : element) (earlier : list str) (a : str) : list xnode :=
  omap (last_match tree a)
       (filter (fun p => Forall (fun a' => p ∉ matched_paths tree a') earlier)
               (sorted_paths tree a)).

Fixpoint selection (tree : element) (earlier args : list str) : list xnode :=
  match args with
  | [] => []
  | a :: rest => block tree earlier a ++ selection tree (earlier ++ [a]) rest
  end.

(** The set [visited] after the patterns [earlier]: the paths they
    match. *)
Definition visited_of (tree : element) (earlier : list str) : gset (option str) :=
  list_to_set (map Some (flat_map (matched_paths tree) earlier)).

End Renderers.

(** ** Vocabulary of the statements, and example inputs *)

(** The lines [append] writes for a text, with their provenance. *)
Definition tagged_lines (s : Subject) (sourceline : Z) (text : str) : list line :=
  imap (fun lineno l => (l, source_tag (get_filename s) sourceline lineno))
       (splitlines s text).

(** A directive of the build whose [conf.py] sets [autophpdoc_members]. *)
Definition conf_members_on : Config :=
  {| autophpdoc_structure_xml := VStr (lit "structure.xml");
     autophpdoc_members := VBool true;
     autophpdoc_title := VBool false |}.

Definition directive_members_off : AutoDirective :=
  {| name := lit "php:automodule"; arguments := [lit "Greeter"];
     options := {[ lit "members" := VBool false ]};
     config := conf_members_on;
     functions := ∅; classes := ∅; methods := ∅; properties := ∅ |}.

(** An element written with string literals, for the examples. *)
Definition attribute (k v : string) : str * str := (lit k, lit v).

Definition xml (t : string) (attrs : list (str * str)) (tx : string)
    (ch : list element) : element :=
  Element (lit t) (list_to_map attrs) (lit tx) ch [].

(** The settings of a build whose [conf.py] sets none of the three. *)
Definition conf_default : Config :=
  {| autophpdoc_structure_xml := VStr [];
     autophpdoc_members := VBool false;
     autophpdoc_title := VBool false |}.

(** [.. php:automodule:: Greeter] without options. *)
Definition directive_plain : AutoDirective :=
  {| name := lit "php:automodule"; arguments := [lit "Greeter"];
     options := ∅; config := conf_default;
     functions := ∅; classes := ∅; methods := ∅; properties := ∅ |}.

(** A subject whose identifier [Greeter] is both a class and a function. *)
Definition subject_both : Subject :=
  {| node := XNode (xml "file" [] "" []) [];
     indent := 0;
     directive :=
       {| name := lit "php:autoclass"; arguments := [];
          options := ∅; config := conf_default;
          functions := {[ lit "Greeter" ]}; classes := {[ lit "Greeter" ]};
          methods := ∅; properties := ∅ |} |}.

(** A [param] tag without [description], a [see] tag without
    [description], and a [throws] tag without [description]. *)
Definition param_no_description : element :=
  xml "tag" [attribute "name" "param"; attribute "variable" "$name"; attribute "type" "string"] "" [].

Definition see_no_description : element :=
  xml "tag" [attribute "name" "see"; attribute "link" "Greeter"] "" [].

Definition throws_no_description : element :=
  xml "tag" [attribute "name" "throws"; attribute "type" "Exception"] "" [].

Definition subject_of (e : element) : Subject :=
  {| node := XNode e []; indent := 3; directive := directive_plain |}.

(** Two functions of one namespace, at lines 5 and 9 of the file. *)
Definition models_function (fname line_ : string) : element :=
  xml "function" [attribute "namespace" "App\Models"; attribute "line" line_] ""
    [xml "name" [] fname []].

Definition models_file : element :=
  xml "file" [attribute "path" "src/Models.php"] ""
    [models_function "load" "5"; models_function "save" "9"].

Definition models_subject (fname line_ : string) : Subject :=
  {| node := XNode (models_function fname line_) [models_file];
     indent := 0; directive := directive_plain |}.

(** The source has the form [file:line:<autophpdoc>]. *)
Definition tagged (e : line) : Prop :=
  exists file z, snd e = file ++ lit ":" ++ dec z ++ lit ":<autophpdoc>".

(** A blank separator line, which has no source. *)
Definition blank (e : line) : Prop := e = ([], []).

Definition extends (st st' : state) : Prop :=
  (exists new, content st' = content st ++ new
               /\ Forall (fun e => blank e \/ tagged e) new)
  /\ seen_namespaces st ⊆ seen_namespaces st'.

Definition extending {A} (m : M A) : Prop :=
  forall st, extends st (snd (m st)).

(** The subject with the [members] option of its directive set to [opt]
    and the [autophpdoc_members] of its build set to [cfg]. *)
Definition with_members (s : Subject) (opt cfg : value) : Subject :=
  let d := directive s in
  {| node := node s; indent := indent s;
     directive :=
       {| name := name d; arguments := arguments d;
          options := <[ lit "members" := opt ]> (options d);
          config := {| autophpdoc_structure_xml := autophpdoc_structure_xml (config d);
                       autophpdoc_members := cfg;
                       autophpdoc_title := autophpdoc_title (config d) |};
          functions := functions d; classes := classes d;
          methods := methods d; properties := properties d |} |}.

Definition models_module : Subject :=
  {| node := XNode models_file []; indent := 0; directive := directive_plain |}.

(** The example of the specification, with patterns that are prefixes:
    [src/a.php] matches both patterns and is rendered for the first. *)
Definition prefix_test (subject pattern : str) : bool := startswith pattern subject.

(** The compiled expressions of the examples, whose patterns find a match
    exactly in the paths they are a prefix of, and an engine that refuses
    every query it is asked for. *)
Definition prefix_compile (pattern : str) : option (str -> bool) :=
  Some (fun subject => prefix_test subject pattern).

Definition refuse_other (tree : element) (argument : str) : result (list xnode) :=
  inl LxmlError.

Definition two_files : element :=
  xml "project" [] ""
    [xml "file" [attribute "path" "src/b.php"] "" [];
     xml "file" [attribute "path" "src/a.php"] "" []].

(** The file of the end-to-end scenario: one function [greet] with a
    description, a [param] tag and a [return] tag. *)
Definition greeter_tree : element :=
  xml "project" [] ""
    [xml "file" [attribute "path" "src/Greeter.php"] ""
       [xml "function" [] ""
          [xml "name" [] "greet" [];
           xml "full_name" [] "greet" [];
           xml "docblock" [] ""
             [xml "description" [] "Says hello" [];
              xml "tag" [attribute "name" "param"; attribute "type" "string";
                         attribute "variable" "$name";
                         attribute "description" "the name"] "" [];
              xml "tag" [attribute "name" "return"; attribute "type" "string";
                         attribute "description" "a greeting"] "" []]]]].

Definition greeter_directive : AutoDirective :=
  {| name := lit "php:automodule"; arguments := [lit "src/Greeter"];
     options := {[ lit "members" := VBool true ]};
     config := conf_members_on;
     functions := ∅; classes := ∅; methods := ∅; properties := ∅ |}.

(** A tree with a file that has no [path]. *)
Definition pathless_tree : element :=
  xml "project" [] ""
    [xml "file" [] "" []; xml "file" [attribute "path" "src/a.php"] "" []].

(** ** Further vocabulary: properties of the rendered text *)

(** No character of the text is a line boundary of [str.splitlines]. *)
Definition one_line (s : str) : Prop :=
  Forall (fun c => is_linebreak c = false) s.

(** The text is white space only. *)
Definition all_space (s : str) : Prop :=
  Forall (fun c => isspace c = true) s.

(** The text is stripped: it neither starts nor ends with white space. *)
Definition stripped (s : str) : Prop :=
  head_ok s = true /\ last_ok s = true.

(** The names of the arguments of a callable, as [get_signature] reads
    them: [argument/name/text ()]. *)
Definition argument_names (s : Subject) : list str :=
  text_step (child_step (lit "name") (child_step (lit "argument") [node s])).

(** [.. php:automodule:: src/a src/] in a build with a structure file. *)
Definition two_files_directive : AutoDirective :=
  {| name := lit "php:automodule"; arguments := [lit "src/a"; lit "src/"];
     options := ∅; config := conf_members_on;
     functions := ∅; classes := ∅; methods := ∅; properties := ∅ |}.

(** The four object types [run] renders. *)
Definition objtypes : list str :=
  [lit "module"; lit "class"; lit "method"; lit "function"].

(** A tree with one function whose full name has braces. *)
Definition braces_tree : element :=
  xml "project" [] ""
    [xml "file" [attribute "path" "src/greet.php"] ""
       [xml "function" [] ""
          [xml "name" [] "greet" []; xml "full_name" [] "\App\greet()" []]]].

(** A [return] tag with a type and without words. *)
Definition return_type_only : element :=
  xml "tag" [attribute "name" "return"; attribute "type" "string";
             attribute "description" ""] "" [].


(** A pattern that is plain, is a regular expression and finds a match in
    the path of no file of the tree. *)
Definition no_match (re_compile : str -> option (str -> bool)) (tree : element)
    (a : str) : Prop :=
  plain a = true
  /\ exists search,
       re_compile a = Some search
       /\ forall n, n ∈ descendants [] tree -> tag (el n) = lit "file" ->
                    search (default [] (path_of n)) = false.

(** A closing parenthesis stands in [s] before the first line feed. *)
Fixpoint closes_on_line (s : str) : bool :=
  match s with
  | [] => false
  | c :: r =>
      if eqc c 10 then false
      else if eqc c 41 then true
      else closes_on_line r
  end.

(** No opening parenthesis of [a] has a closing one on its line, in [a]
    or in the text [rest] after it. *)
Definition no_group_in (a rest : str) : Prop :=
  forall a1 a2, a = a1 ++ 40 :: a2 -> closes_on_line (a2 ++ rest) = false.

(** The first parenthesised group of [s]: [s] is the text [a] before the
    group, which has no group and no white space at its end, the white
    space [ws] before the group, the group from its opening parenthesis to
    the last closing parenthesis of the line, and the text [c] after it. *)
Definition first_group (s a ws b c : str) : Prop :=
  s = a ++ ws ++ 40 :: b ++ 41 :: c
  /\ last_ok a = true
  /\ no_group_in a (ws ++ 40 :: b ++ 41 :: c)
  /\ all_space ws
  /\ ~ In 10 b
  /\ closes_on_line c = false.

(** The module name of [PHPModule.run]:
    [os.path.splitext (filename)[0].replace ('/', '.')]. *)
Definition module_name (filename : str) : str :=
  replace_char 47 [46] (splitext_root filename).

(** A directory part of a path: empty, or with a slash at its end. *)
Definition dir_part (dir : str) : Prop :=
  dir = [] \/ exists d, dir = d ++ [47].

(** [.. php:automodule:: src/a b'c]: the second pattern has an
    apostrophe. *)
Definition quoted_directive : AutoDirective :=
  {| name := lit "php:automodule"; arguments := [lit "src/a"; lit "b'c"];
     options := ∅; config := conf_members_on;
     functions := ∅; classes := ∅; methods := ∅; properties := ∅ |}.

(** [.. php:automodule:: (]: the pattern is no regular expression. *)
Definition bracket_directive : AutoDirective :=
  {| name := lit "php:automodule"; arguments := [lit "("];
     options := ∅; config := conf_members_on;
     functions := ∅; classes := ∅; methods := ∅; properties := ∅ |}.

Definition bracket_compile (pattern : str) : option (str -> bool) :=
  if bool_decide (pattern = lit "(") then None else prefix_compile pattern.
(** ** The text functions on examples *)

Example trim_ex1 :
  trim (lit "<p>Says   hello</p> ") = lit "Says hello".
Proof. reflexivity. Qed.

Example strip_braces_ex1 :
  strip_braces (lit "greet ($name, $x)") = lit "greet".
Proof. reflexivity. Qed.

Example strip_braces_ex2 :
  strip_braces (lit "f (a) b") = lit "f b".
Proof. reflexivity. Qed.

Example bs_ex1 :
  bs (92 :: lit "App" ++ 92 :: lit "Models") = lit "App" ++ 92 :: 92 :: lit "Models".
Proof. reflexivity. Qed.

Example trim_twice_ex :
  trim (lit "<<p>p>") = lit "<p>" /\ trim (trim (lit "<<p>p>")) = [].
Proof. split; reflexivity. Qed.

Example splitlines_ex :
  py_splitlines (lit "a" ++ [13; 10] ++ lit "b" ++ [10; 10] ++ lit "c" ++ [10])
  = [lit "a"; lit "b"; []; lit "c"].
Proof. reflexivity. Qed.

Example splitext_ex :
  splitext_root (lit "src/Greeter.php") = lit "src/Greeter"
  /\ splitext_root (lit "src.d/.hidden") = lit "src.d/.hidden"
  /\ dec 12 = lit "12" /\ dec (-3) = lit "-3" /\ dec 0 = lit "0".
Proof. repeat split; reflexivity. Qed.


(** ** Facts about substitution and stripping *)

Lemma re_sub_skip m repl k s :
  re_sub m repl k s = re_sub m repl 0 (drop k s).
Proof.
  revert k; induction s as [|c r IH]; intros [|k]; simpl; auto.
Qed.

Lemma re_sub_no_match m repl s :
  has_match m s = false -> re_sub m repl 0 s = s.
Proof.
  induction s as [|c r IH]; simpl; auto.
  intros H. apply orb_false_iff in H as [H1 H2].
  destruct (m (c :: r)) as [[|k]|]; try discriminate; now rewrite IH.
Qed.

Lemma re_sub_length m repl k s :
  (length repl <= 1)%nat -> (length (re_sub m repl k s) <= length s)%nat.
Proof.
  intros Hr. revert k; induction s as [|c r IH]; intros k; simpl; auto.
  destruct k as [|k].
  - destruct (m (c :: r)) as [[|j]|]; simpl.
    + specialize (IH 0%nat); lia.
    + rewrite length_app. specialize (IH j); lia.
    + specialize (IH 0%nat); lia.
  - specialize (IH k); lia.
Qed.

Lemma re_sub_shorter m s :
  has_match m s = true -> (length (re_sub m [] 0 s) < length s)%nat.
Proof.
  induction s as [|c r IH]; simpl; [discriminate|].
  intros H. destruct (m (c :: r)) as [[|k]|]; simpl in *.
  - specialize (IH H); lia.
  - pose proof (re_sub_length m [] k r); simpl in *; lia.
  - specialize (IH H); lia.
Qed.

Lemma startswith_spec p s :
  startswith p s = true <-> exists c, s = p ++ c.
Proof.
  revert s; induction p as [|a p IH]; intros s; simpl.
  - split; eauto.
  - destruct s as [|b s].
    + split; [discriminate|]. intros [c H]; discriminate.
    + unfold eqc. rewrite andb_true_iff, N.eqb_eq, IH. split.
      * intros [-> [c ->]]. eauto.
      * intros [c H]. injection H as -> ->. eauto.
Qed.

Lemma has_match_cons m c r :
  has_match m (c :: r) = true <->
  (exists k, m (c :: r) = Some (S k)) \/ has_match m r = true.
Proof.
  simpl. rewrite orb_true_iff. split; intros [H|H]; auto; left.
  - destruct (m (c :: r)) as [[|k]|]; try discriminate; eauto.
  - destruct H as [k ->]; reflexivity.
Qed.

(** A paragraph tag occurs in [s] exactly when [RE_TRIM] matches somewhere. *)
Lemma has_match_RE_TRIM s :
  has_match RE_TRIM s = true <->
  contains (lit "<p>") s \/ contains (lit "</p>") s.
Proof.
  induction s as [|c r IH].
  - split; [discriminate|].
    intros [(a & b & H)|(a & b & H)]; destruct a; discriminate.
  - rewrite has_match_cons, IH. unfold RE_TRIM. split.
    + intros [[k H]|[(a & b & ->)|(a & b & ->)]].
      * destruct (startswith (lit "<p>") (c :: r)) eqn:E1.
        { apply startswith_spec in E1 as [x E1]. left. exists [], x. exact E1. }
        destruct (startswith (lit "</p>") (c :: r)) eqn:E2; [|discriminate].
        apply startswith_spec in E2 as [x E2]. right. exists [], x. exact E2.
      * left. exists (c :: a), b. reflexivity.
      * right. exists (c :: a), b. reflexivity.
    + intros [(a & b & H)|(a & b & H)].
      * destruct a as [|a0 a].
        { left. assert (E : startswith (lit "<p>") (c :: r) = true)
            by (apply startswith_spec; eauto).
          rewrite E. eauto. }
        injection H as -> ->. right. left. exists a, b. reflexivity.
      * destruct a as [|a0 a].
        { left. assert (E : startswith (lit "</p>") (c :: r) = true)
            by (apply startswith_spec; eauto).
          rewrite E. destruct (startswith (lit "<p>") (c :: r)); eauto. }
        injection H as -> ->. right. right. exists a, b. reflexivity.
Qed.

Lemma drop_span_len f s : drop (span_len f s) s = lstrip_by f s.
Proof. induction s as [|c r IH]; simpl; auto. destruct (f c); simpl; auto. Qed.

Lemma RE_WS_sub_cons c r :
  RE_WS_sub (c :: r) =
  if isspace c then 32 :: RE_WS_sub (lstrip_by isspace r) else c :: RE_WS_sub r.
Proof.
  simpl. unfold RE_WS at 1. simpl. destruct (isspace c); auto.
  rewrite re_sub_skip, drop_span_len. reflexivity.
Qed.

Lemma lstrip_length f s : (length (lstrip_by f s) <= length s)%nat.
Proof. induction s as [|c r IH]; simpl; auto. destruct (f c); simpl; lia. Qed.

Lemma rstrip_length f s : (length (rstrip_by f s) <= length s)%nat.
Proof.
  induction s as [|c r IH]; simpl; auto.
  destruct (rstrip_by f r); [destruct (f c)|]; simpl in *; lia.
Qed.

Lemma strip_length s : (length (strip s) <= length s)%nat.
Proof.
  unfold strip. pose proof (rstrip_length isspace (lstrip_by isspace s)).
  pose proof (lstrip_length isspace s). lia.
Qed.

Lemma lstrip_head_ok s : head_ok (lstrip_by isspace s) = true.
Proof.
  induction s as [|c r IH]; simpl; auto.
  destruct (isspace c) eqn:E; simpl; auto. now rewrite E.
Qed.

Lemma last_ok_tail c r : last_ok (c :: r) = true -> last_ok r = true.
Proof. destruct r; simpl; auto. Qed.

Lemma lstrip_last_ok s : last_ok s = true -> last_ok (lstrip_by isspace s) = true.
Proof.
  induction s as [|c r IH]; auto. intros H.
  cbn [lstrip_by]. destruct (isspace c); auto.
  apply IH. now apply last_ok_tail in H.
Qed.

Lemma lstrip_nonempty s :
  last_ok s = true -> s <> [] -> lstrip_by isspace s <> [].
Proof.
  induction s as [|c r IH]; auto. intros H _.
  cbn [lstrip_by]. destruct (isspace c) eqn:E; [|discriminate].
  apply IH; [now apply last_ok_tail in H|].
  intros ->. simpl in H. now rewrite E in H.
Qed.

Lemma rstrip_last_ok s : last_ok (rstrip_by isspace s) = true.
Proof.
  induction s as [|c r IH]; simpl; auto.
  destruct (rstrip_by isspace r) as [|d r'] eqn:E.
  - destruct (isspace c) eqn:Ec; simpl; auto. now rewrite Ec.
  - exact IH.
Qed.

Lemma rstrip_head_ok s :
  head_ok s = true -> head_ok (rstrip_by isspace s) = true.
Proof.
  destruct s as [|c r]; simpl; auto. intros H.
  destruct (isspace c) eqn:E; [discriminate|].
  destruct (rstrip_by isspace r); simpl; now rewrite E.
Qed.

Lemma strip_ok s : head_ok (strip s) = true /\ last_ok (strip s) = true.
Proof.
  unfold strip. split.
  - apply rstrip_head_ok, lstrip_head_ok.
  - apply rstrip_last_ok.
Qed.

Lemma RE_WS_sub_head_ok s : head_ok s = true -> head_ok (RE_WS_sub s) = true.
Proof.
  destruct s as [|c r]; auto. rewrite RE_WS_sub_cons. simpl.
  destruct (isspace c) eqn:E; simpl; [discriminate|]. now rewrite E.
Qed.

Lemma RE_WS_sub_norm_aux n :
  forall s, (length s <= n)%nat -> last_ok s = true -> is_norm (RE_WS_sub s) = true.
Proof.
  induction n as [|n IH]; intros [|c r] Hn Hl; auto; simpl in Hn; [lia|].
  rewrite RE_WS_sub_cons. destruct (isspace c) eqn:E.
  - assert (Hr : r <> []) by (intros ->; simpl in Hl; now rewrite E in Hl).
    apply last_ok_tail in Hl.
    pose proof (lstrip_nonempty r Hl Hr) as Hne.
    pose proof (lstrip_head_ok r) as Hh.
    pose proof (lstrip_last_ok r Hl) as Hl'.
    pose proof (lstrip_length isspace r) as Hlen.
    assert (Hrec : is_norm (RE_WS_sub (lstrip_by isspace r)) = true)
      by (apply IH; [lia|assumption]).
    destruct (lstrip_by isspace r) as [|d r'] eqn:Ed; [congruence|].
    rewrite RE_WS_sub_cons in *. simpl in Hh.
    destruct (isspace d) eqn:Esd; [discriminate|].
    cbn [is_norm]. cbn [is_norm] in Hrec. rewrite Esd in *.
    replace (isspace 32) with true by reflexivity.
    replace (eqc 32 32) with true by reflexivity. exact Hrec.
  - cbn [is_norm]. rewrite E. apply IH; [lia|]. now apply last_ok_tail in Hl.
Qed.

Lemma RE_WS_sub_norm s : last_ok s = true -> is_norm (RE_WS_sub s) = true.
Proof. apply (RE_WS_sub_norm_aux (length s)); lia. Qed.

Lemma norm_lstrip s : head_ok s = true -> lstrip_by isspace s = s.
Proof. destruct s as [|c r]; simpl; auto. now destruct (isspace c). Qed.

Lemma norm_rstrip s : is_norm s = true -> rstrip_by isspace s = s.
Proof.
  induction s as [|c r IH]; auto. cbn [is_norm rstrip_by].
  intros H. apply andb_true_iff in H as [H1 H2]. rewrite (IH H2).
  destruct r as [|d r]; auto.
  destruct (isspace c); auto. apply andb_true_iff in H1 as [_ H1]. discriminate.
Qed.

Lemma norm_RE_WS_sub s : is_norm s = true -> RE_WS_sub s = s.
Proof.
  induction s as [|c r IH]; auto. intros H. rewrite RE_WS_sub_cons.
  cbn [is_norm] in H. apply andb_true_iff in H as [H1 H2].
  destruct (isspace c).
  - apply andb_true_iff in H1 as [Hc Hd]. apply N.eqb_eq in Hc. subst c.
    rewrite norm_lstrip, (IH H2); auto.
    destruct r; [discriminate|exact Hd].
  - now rewrite (IH H2).
Qed.

(** The result of [trim] is in normal form. *)
Lemma trim_norm x : head_ok (trim x) = true /\ is_norm (trim x) = true.
Proof.
  unfold trim. destruct (strip_ok (re_sub RE_TRIM [] 0 x)) as [Hh Hl]. split.
  - now apply RE_WS_sub_head_ok.
  - now apply RE_WS_sub_norm.
Qed.

Lemma trim_length x : (length (trim x) <= length x)%nat.
Proof.
  unfold trim.
  pose proof (re_sub_length RE_WS (lit " ") 0 (strip (re_sub RE_TRIM [] 0 x))) as H1.
  pose proof (strip_length (re_sub RE_TRIM [] 0 x)) as H2.
  pose proof (re_sub_length RE_TRIM [] 0 x) as H3.
  simpl in *. lia.
Qed.

(** ** Normalisation ([trim]) *)

(** C7, as stated, fails: removing the tags of [<<p>p>] leaves [<p>],
    which a second [trim] removes. *)
Lemma trim_not_idempotent :
  ~ (forall x : str, trim (trim x) = trim x).
Proof.
  intros H. specialize (H (lit "<<p>p>")). vm_compute in H. discriminate.
Qed.

(** C7 (amended): [trim (trim x) = trim x] holds exactly for the texts [x]
    whose [trim x] contains neither [<p>] nor [</p>]. *)
Theorem trim_idempotent_iff (x : str) :
  trim (trim x) = trim x <->
  ~ contains (lit "<p>") (trim x) /\ ~ contains (lit "</p>") (trim x).
Proof.
  destruct (has_match RE_TRIM (trim x)) eqn:E.
  - split.
    + intros H. exfalso.
      pose proof (re_sub_shorter RE_TRIM (trim x) E) as Hs.
      pose proof (trim_length (trim x)) as Hl.
      assert (Hlt : (length (trim (trim x)) < length (trim x))%nat).
      { unfold trim at 1.
        pose proof (re_sub_length RE_WS (lit " ") 0
                      (strip (re_sub RE_TRIM [] 0 (trim x)))) as H1.
        pose proof (strip_length (re_sub RE_TRIM [] 0 (trim x))) as H2.
        simpl in *. lia. }
      rewrite H in Hlt. lia.
    + intros [H1 H2]. apply has_match_RE_TRIM in E as [E|E]; contradiction.
  - split.
    + intros _. split; intros H;
        assert (has_match RE_TRIM (trim x) = true) as E'
          by (apply has_match_RE_TRIM; auto); congruence.
    + intros _. destruct (trim_norm x) as [Hh Hn].
      unfold trim at 1. rewrite (re_sub_no_match _ _ _ E).
      unfold strip. rewrite (norm_lstrip _ Hh), (norm_rstrip _ Hn).
      now apply norm_RE_WS_sub.
Qed.

(** ** Brace stripping ([strip_braces]) *)

Lemma last_paren_some r n :
  last_paren r = Some n -> exists b c, r = b ++ 41 :: c /\ ~ In 10 b.
Proof.
  revert n; induction r as [|x r IH]; intros n; simpl; [discriminate|].
  unfold eqc. destruct (N.eqb_spec x 10) as [|Hx]; [discriminate|].
  destruct (last_paren r) as [m|].
  - intros _. destruct (IH m eq_refl) as (b & c & -> & Hb).
    exists (x :: b), c. split; auto. simpl. intros [?|?]; auto.
  - destruct (N.eqb_spec x 41) as [->|]; [|discriminate].
    intros _. exists [], r. split; auto.
Qed.

Lemma last_paren_group b c :
  ~ In 10 b -> exists n, last_paren (b ++ 41 :: c) = Some n.
Proof.
  induction b as [|x b IH]; simpl; intros Hb.
  - replace (eqc 41 10) with false by reflexivity.
    destruct (last_paren c); eauto.
  - unfold eqc at 1. destruct (N.eqb_spec x 10) as [->|Hx]; [tauto|].
    destruct IH as [n ->]; [tauto|]. eauto.
Qed.

Lemma has_match_RE_BRACES s :
  has_match RE_BRACES s = true <-> paren_group s.
Proof.
  induction s as [|x r IH].
  - split; [discriminate|]. intros (a & b & c & H & _). destruct a; discriminate.
  - rewrite has_match_cons, IH. split.
    + intros [[k H]|(a & b & c & -> & Hb)].
      * unfold RE_BRACES in H.
        destruct (drop (span_len isspace (x :: r)) (x :: r)) as [|y t] eqn:Ed;
          [discriminate|].
        unfold eqc in H. destruct (N.eqb_spec y 40) as [->|]; [|discriminate].
        destruct (last_paren t) as [n|] eqn:El; [|discriminate].
        destruct (last_paren_some _ _ El) as (b & c & -> & Hb).
        exists (take (span_len isspace (x :: r)) (x :: r)), b, c. split; auto.
        rewrite <- Ed. symmetry. apply take_drop.
      * exists (x :: a), b, c. auto.
    + intros (a & b & c & H & Hb). destruct a as [|y a].
      * left. simpl in H. injection H as -> ->.
        destruct (last_paren_group b c Hb) as [n Hn].
        exists n. unfold RE_BRACES.
        replace (span_len isspace (40 :: b ++ 41 :: c)) with 0%nat by reflexivity.
        cbn [drop]. replace (eqc 40 40) with true by reflexivity.
        now rewrite Hn.
      * right. injection H as -> ->. exists a, b, c. auto.
Qed.

(** C8, as stated, fails: [strip_braces] also removes a parenthesised
    group that is not at the end of the text: [f (a) b] has no
    parenthesised suffix and becomes [f b]. *)
Lemma strip_braces_not_only_suffix :
  ~ (forall s : str, ~ paren_suffix s -> strip_braces s = s).
Proof.
  intros H. specialize (H (lit "f (a) b")).
  assert (Hn : ~ paren_suffix (lit "f (a) b")).
  { intros (p & a & E). apply (f_equal (@rev N)) in E.
    rewrite rev_app_distr in E. simpl in E.
    rewrite rev_app_distr in E. simpl in E. discriminate. }
  specialize (H Hn). vm_compute in H. discriminate.
Qed.

(** [strip_braces s = s] holds exactly for the texts [s] that have nowhere
    an opening parenthesis followed, on the same line, by a closing one. *)
Lemma strip_braces_noop (s : str) :
  strip_braces s = s <-> ~ paren_group s.
Proof.
  unfold strip_braces. rewrite <- has_match_RE_BRACES.
  destruct (has_match RE_BRACES s) eqn:E.
  - split; [|tauto]. intros H.
    pose proof (re_sub_shorter RE_BRACES s E) as Hs. rewrite H in Hs. lia.
  - split; [discriminate|]. intros _. now apply re_sub_no_match.
Qed.

Lemma last_paren_closes r : last_paren r = None <-> closes_on_line r = false.
Proof.
  induction r as [|x r IH]; simpl; [tauto|].
  destruct (eqc x 10); [tauto|].
  destruct (last_paren r) as [n|].
  - assert (closes_on_line r = true) as ->
        by (destruct (closes_on_line r); auto; now destruct IH as [_ IH']; discriminate IH').
    destruct (eqc x 41); split; discriminate.
  - assert (closes_on_line r = false) as -> by now apply IH.
    destruct (eqc x 41); split; auto; discriminate.
Qed.

(** The greedy [.*\)] ends at the last closing parenthesis of the line. *)
Lemma last_paren_split r n :
  last_paren r = Some n ->
  exists b c, r = b ++ 41 :: c /\ ~ In 10 b /\ closes_on_line c = false
              /\ n = S (length b).
Proof.
  revert n; induction r as [|x r IH]; intros n; simpl; [discriminate|].
  unfold eqc. destruct (N.eqb_spec x 10) as [|Hx]; [discriminate|].
  destruct (last_paren r) as [m|] eqn:El.
  - intros [= <-]. destruct (IH m eq_refl) as (b & c & -> & Hb & Hc & ->).
    exists (x :: b), c. repeat split; auto. simpl. intros [?|?]; auto.
  - destruct (N.eqb_spec x 41) as [->|]; [|discriminate].
    intros [= <-]. exists [], r. repeat split; auto.
    now apply last_paren_closes.
Qed.

Lemma last_paren_greedy b c :
  ~ In 10 b -> closes_on_line c = false ->
  last_paren (b ++ 41 :: c) = Some (S (length b)).
Proof.
  intros Hb Hc. induction b as [|x b IH]; simpl.
  - replace (eqc 41 10) with false by reflexivity.
    apply last_paren_closes in Hc. now rewrite Hc.
  - unfold eqc at 1. destruct (N.eqb_spec x 10) as [->|Hx]; [exfalso; apply Hb; now left|].
    rewrite IH; auto. intros H. apply Hb. now right.
Qed.

Lemma span_len_all_space ws c rest :
  all_space ws -> isspace c = false ->
  span_len isspace (ws ++ c :: rest) = length ws.
Proof.
  induction 1 as [|x ws Hx _ IH]; intros Hc; simpl.
  - now rewrite Hc.
  - rewrite Hx. f_equal. auto.
Qed.

Lemma take_span_len f s : Forall (fun c => f c = true) (take (span_len f s) s).
Proof.
  induction s as [|c r IH]; simpl; [constructor|].
  destruct (f c) eqn:E; simpl; constructor; auto.
Qed.

Lemma lstrip_app_nonempty f s rest :
  lstrip_by f s <> [] -> lstrip_by f (s ++ rest) = lstrip_by f s ++ rest.
Proof.
  induction s as [|c r IH]; simpl; [congruence|].
  destruct (f c); auto.
Qed.

(** Where the first character is white space, the match is the one of the
    rest of the text with this character before it. *)
Lemma RE_BRACES_space x t :
  isspace x = true ->
  RE_BRACES (x :: t) = option_map S (RE_BRACES t).
Proof.
  intros Hx. unfold RE_BRACES. cbn [span_len]. rewrite Hx. cbn [drop].
  destruct (drop (span_len isspace t) t) as [|y r]; [reflexivity|].
  destruct (eqc y 40); [|reflexivity].
  destruct (last_paren r); reflexivity.
Qed.

Lemma RE_BRACES_open r :
  RE_BRACES (40 :: r) = option_map S (last_paren r).
Proof.
  unfold RE_BRACES.
  replace (span_len isspace (40 :: r)) with 0%nat by reflexivity.
  cbn [drop]. replace (eqc 40 40) with true by reflexivity.
  destruct (last_paren r); reflexivity.
Qed.

(** No match starts in the text before the first group. *)
Lemma RE_BRACES_before a rest :
  a <> [] -> last_ok a = true -> no_group_in a rest ->
  RE_BRACES (a ++ rest) = None.
Proof.
  induction a as [|x a IH]; intros Hne Hl Hg; [congruence|].
  destruct (isspace x) eqn:Hx.
  - destruct a as [|y a]; [simpl in Hl; rewrite Hx in Hl; discriminate|].
    change ((x :: y :: a) ++ rest) with (x :: (y :: a) ++ rest).
    rewrite RE_BRACES_space by auto.
    rewrite IH; [reflexivity|discriminate|exact Hl|].
    intros a1 a2 E. apply (Hg (x :: a1) a2). now rewrite E.
  - change ((x :: a) ++ rest) with (x :: a ++ rest).
    unfold RE_BRACES. cbn [span_len]. rewrite Hx. cbn [drop].
    unfold eqc. destruct (N.eqb_spec x 40) as [->|]; [|reflexivity].
    assert (Hc : closes_on_line (a ++ rest) = false) by (apply (Hg [] a); reflexivity).
    apply last_paren_closes in Hc. now rewrite Hc.
Qed.

Lemma re_sub_before a rest :
  last_ok a = true -> no_group_in a rest ->
  re_sub RE_BRACES [] 0 (a ++ rest) = a ++ re_sub RE_BRACES [] 0 rest.
Proof.
  induction a as [|x a IH]; intros Hl Hg; [reflexivity|].
  change ((x :: a) ++ rest) with (x :: a ++ rest). cbn [re_sub].
  change (x :: a ++ rest) with ((x :: a) ++ rest).
  rewrite RE_BRACES_before by (auto; discriminate).
  cbn [app]. f_equal. apply IH.
  - now apply last_ok_tail in Hl.
  - intros a1 a2 E. apply (Hg (x :: a1) a2). now rewrite E.
Qed.

Lemma re_sub_match m s k :
  m s = Some (S k) -> re_sub m [] 0 s = re_sub m [] 0 (drop (S k) s).
Proof.
  destruct s as [|c r]; intros H; [reflexivity|].
  cbn [re_sub]. rewrite H. cbn [app drop]. apply re_sub_skip.
Qed.

(** The white space, the opening parenthesis and the text up to the last
    closing parenthesis of the line are one match. *)
Lemma RE_BRACES_group ws b c :
  all_space ws -> ~ In 10 b -> closes_on_line c = false ->
  RE_BRACES (ws ++ 40 :: b ++ 41 :: c) = Some (S (length ws + S (length b))).
Proof.
  intros Hw Hb Hc. unfold RE_BRACES.
  rewrite span_len_all_space by auto. rewrite drop_app_length.
  replace (eqc 40 40) with true by reflexivity.
  rewrite last_paren_greedy by auto. f_equal. lia.
Qed.

Lemma drop_group (ws b c : str) :
  drop (S (length ws + S (length b))) (ws ++ 40 :: b ++ 41 :: c) = c.
Proof.
  induction ws as [|x ws IH]; [|exact IH].
  induction b as [|x b IH]; [reflexivity|exact IH].
Qed.

Lemma strip_braces_first_group s a ws b c :
  first_group s a ws b c -> strip_braces s = a ++ strip_braces c.
Proof.
  intros (-> & Hl & Hg & Hw & Hb & Hc). unfold strip_braces.
  rewrite re_sub_before by auto. f_equal.
  rewrite (re_sub_match _ _ _ (RE_BRACES_group ws b c Hw Hb Hc)).
  now rewrite drop_group.
Qed.

(** The first place of a text where a pattern matches. *)
Lemma first_match m s :
  has_match m s = true ->
  exists a t k,
    s = a ++ t /\ m t = Some (S k)
    /\ forall a1 x a2 j, a = a1 ++ x :: a2 -> m (x :: a2 ++ t) <> Some (S j).
Proof.
  induction s as [|c r IH]; [discriminate|].
  intros H. destruct (m (c :: r)) as [[|k]|] eqn:Hm.
  - apply has_match_cons in H as [[k Hk]|H]; [congruence|].
    destruct (IH H) as (a & t & k & -> & Ht & Hf).
    exists (c :: a), t, k. repeat split; auto.
    intros [|y a1] x a2 j E; injection E as -> ->; [congruence|eauto].
  - exists [], (c :: r), k. repeat split; auto.
    intros [|y a1] x a2 j E; discriminate.
  - apply has_match_cons in H as [[k Hk]|H]; [congruence|].
    destruct (IH H) as (a & t & k & -> & Ht & Hf).
    exists (c :: a), t, k. repeat split; auto.
    intros [|y a1] x a2 j E; injection E as -> ->; [congruence|eauto].
Qed.

Lemma last_ok_false a :
  last_ok a = false -> exists a' x, a = a' ++ [x] /\ isspace x = true.
Proof.
  induction a as [|c r IH]; [discriminate|].
  destruct r as [|d r].
  - simpl. intros H. exists [], c. split; auto. now destruct (isspace c).
  - intros H. change (last_ok (d :: r) = false) in H.
    destruct (IH H) as (a' & x & -> & Hx). exists (c :: a'), x. auto.
Qed.

Lemma RE_BRACES_some t k :
  RE_BRACES t = Some k ->
  exists ws b c,
    t = ws ++ 40 :: b ++ 41 :: c /\ all_space ws /\ ~ In 10 b
    /\ closes_on_line c = false.
Proof.
  unfold RE_BRACES. intros H.
  destruct (drop (span_len isspace t) t) as [|y r] eqn:Ed; [discriminate|].
  unfold eqc in H. destruct (N.eqb_spec y 40) as [->|]; [|discriminate].
  destruct (last_paren r) as [n|] eqn:El; [|discriminate].
  destruct (last_paren_split _ _ El) as (b & c & -> & Hb & Hc & _).
  exists (take (span_len isspace t) t), b, c. repeat split; auto.
  - rewrite <- Ed. symmetry. apply take_drop.
  - apply take_span_len.
Qed.

(** Every text with a group has a first group. *)
Lemma first_group_exists s :
  paren_group s -> exists a ws b c, first_group s a ws b c.
Proof.
  intros H. apply has_match_RE_BRACES, first_match in H as (a & t & k & -> & Ht & Hf).
  destruct (RE_BRACES_some _ _ Ht) as (ws & b & c & Et & Hw & Hb & Hc).
  exists a, ws, b, c. unfold first_group. rewrite <- Et. repeat split; auto.
  - destruct (last_ok a) eqn:Hl; [reflexivity|exfalso].
    apply last_ok_false in Hl as (a' & x & -> & Hx).
    apply (Hf a' x [] (S k) eq_refl). cbn [app].
    rewrite RE_BRACES_space, Ht by auto. reflexivity.
  - intros a1 a2 ->.
    destruct (closes_on_line (a2 ++ t)) eqn:E; [exfalso|reflexivity].
    destruct (last_paren (a2 ++ t)) as [n|] eqn:El.
    + apply (Hf a1 40 a2 n eq_refl). now rewrite RE_BRACES_open, El.
    + apply last_paren_closes in El. congruence.
Qed.

(** C8 (amended): [strip_braces] removes every parenthesised group that
    closes on its line, with the white space before it, wherever the group
    stands: the first group, from its opening parenthesis to the last
    closing parenthesis of the line, is cut out with the white space before
    it, the text before it stays, and the text after it is stripped in the
    same way; every text with a group has a first group; and
    [strip_braces s = s] holds exactly for the texts without a group. *)
Theorem strip_braces_removes_groups :
  (forall s, strip_braces s = s <-> ~ paren_group s)
  /\ (forall s a ws b c,
        first_group s a ws b c -> strip_braces s = a ++ strip_braces c)
  /\ (forall s, paren_group s -> exists a ws b c, first_group s a ws b c).
Proof.
  split; [exact strip_braces_noop|].
  split; [exact strip_braces_first_group|exact first_group_exists].
Qed.


(** ** The state monad *)

Lemma bind_ok {A B} (m : M A) (k : A -> M B) st a st' :
  m st = (inr a, st') -> bind m k st = k a st'.
Proof. unfold bind. now intros ->. Qed.

Lemma bind_err {A B} (m : M A) (k : A -> M B) st e st' :
  m st = (inl e, st') -> bind m k st = (inl e, st').
Proof. unfold bind. now intros ->. Qed.

Lemma for_content_append (ls : list line) st :
  for_ ls (fun '(l, src) => content_append l src) st
  = (inr tt, State (content st ++ ls) (seen_namespaces st)).
Proof.
  revert st; induction ls as [|[l src] ls IH]; intros [c sn]; simpl.
  - unfold ret. now rewrite app_nil_r.
  - unfold bind, content_append. simpl. rewrite IH. simpl.
    now rewrite <- app_assoc.
Qed.

Lemma append_ok py_int s text st n :
  get_lineno py_int s = inr n ->
  append py_int s text st
  = (inr tt, State (content st ++ tagged_lines s n text) (seen_namespaces st)).
Proof.
  intros H. unfold append, bind, lift. rewrite H. apply for_content_append.
Qed.

Lemma append_err py_int s text st e :
  get_lineno py_int s = inl e -> append py_int s text st = (inl e, st).
Proof. intros H. unfold append, bind, lift. now rewrite H. Qed.

(** ** Option lookup ([get_opt]) *)

(** C10: a false value of the directive's option (absent, [False], the
    empty string or the empty list) falls through to the setting of the
    build; so where the setting of the build is true the result is true,
    and no value of the directive's option turns it into a false one. *)
Theorem get_opt_falls_through (d : AutoDirective) (opt : str) (required : bool) :
  (truthy (options_get d opt) = false ->
   get_opt d opt required =
   match getattr (config d) (NAME ++ lit "_" ++ opt) with
   | inl e => inl e
   | inr c =>
       if required && negb (truthy c)
       then inl (AutoPHPDocError (required_msg opt))
       else inr c
   end)
  /\ (forall c, getattr (config d) (NAME ++ lit "_" ++ opt) = inr c ->
      truthy c = true ->
      (exists v, get_opt d opt required = inr v /\ truthy v = true)
      /\ (truthy (options_get d opt) = false -> get_opt d opt required = inr c)).
Proof.
  unfold get_opt. split; [|intros c Hc Ht; split].
  - intros ->. reflexivity.
  - destruct (truthy (options_get d opt)) eqn:E.
    + exists (options_get d opt). rewrite E, andb_false_r. auto.
    + exists c. rewrite Hc, Ht, andb_false_r. auto.
  - intros ->. now rewrite Hc, Ht, andb_false_r.
Qed.

Lemma get_opt_falls_through_witness :
  get_opt directive_members_off (lit "members") false = inr (VBool true).
Proof.
  destruct (get_opt_falls_through directive_members_off (lit "members") false)
    as [_ H].
  apply (H (VBool true)); reflexivity.
Defined.

(** C1 (the code differs): [run] asks for [structure_xml] without
    [required], so with the option and the setting both empty it raises no
    [AutoPHPDocError]; it hands the empty path to the parser, whose
    exception is what the invocation raises.  With [required] the lookup
    would raise the error the claim describes. *)
Theorem run_without_structure_xml (py_int : str -> option Z)
    (re_compile : str -> option (str -> bool))
    (xpath_other : element -> str -> result (list xnode)) (seen : gset str) :
  get_opt directive_plain (lit "structure_xml") false = inr (VStr [])
  /\ run py_int re_compile xpath_other (fun _ => inl OSError) directive_plain seen
     = (inl OSError, seen)
  /\ get_opt directive_plain (lit "structure_xml") true
     = inl (AutoPHPDocError
              (lit ":structure_xml: option required in directive (or set autophpdoc_structure_xml in conf.py).")).
Proof. repeat split. Qed.

(** X20: [run] passes whatever [get_opt] returns to the parser; where the
    parser raises, nothing is rendered and the registry stays as it is: an
    error of the XML library is logged, any other exception is raised. *)
Lemma run_reaches_parser py_int re_compile xpath_other etree_parse d seen v e :
  get_opt d (lit "structure_xml") false = inr v ->
  etree_parse v = inl e ->
  run py_int re_compile xpath_other etree_parse d seen
  = (match e with LxmlError => inr Logged | _ => inl e end, seen).
Proof.
  intros Hv He. unfold run. rewrite Hv, He. now destruct e.
Qed.

(** ** Cross references ([xref]) *)

(** C6: a non-empty identifier is classified by membership in the order
    class, function, method, property; what is in none of the sets is
    emitted as the bare escaped identifier. *)
Theorem xref_precedence (s : Subject) (link : str) :
  link <> [] ->
  (link ∈ classes (directive s) ->
   xref s link = lit ":php:class:`" ++ bs link ++ lit "`")
  /\ (link ∉ classes (directive s) -> link ∈ functions (directive s) ->
      xref s link = lit ":php:func:`" ++ bs link ++ lit "`")
  /\ (link ∉ classes (directive s) -> link ∉ functions (directive s) ->
      link ∈ methods (directive s) ->
      xref s link = lit ":php:meth:`" ++ bs link ++ lit "`")
  /\ (link ∉ classes (directive s) -> link ∉ functions (directive s) ->
      link ∉ methods (directive s) -> link ∈ properties (directive s) ->
      xref s link = lit ":php:attr:`" ++ bs link ++ lit "`")
  /\ (link ∉ classes (directive s) -> link ∉ functions (directive s) ->
      link ∉ methods (directive s) -> link ∉ properties (directive s) ->
      xref s link = bs link).
Proof.
  intros Hne. destruct link as [|c link]; [congruence|]. unfold xref.
  repeat split; intros; repeat (case_decide; try tauto);
    try reflexivity; try discriminate;
    match goal with H : ~ (_ <> _) |- _ => exfalso; apply H; discriminate end.
Qed.

Lemma xref_precedence_witness :
  xref subject_both (lit "Greeter") = lit ":php:class:`Greeter`".
Proof.
  apply (xref_precedence subject_both (lit "Greeter")).
  - discriminate.
  - vm_compute. reflexivity.
Defined.

(** ** Missing attributes *)

(** C3 (the code differs): [PHPArgument.run], [PHPReturn.run] and
    [PHPSee.run] pass the absent attribute to [trim], which raises
    [TypeError]; only [PHPThrows.run] replaces an absent description by
    the empty string. *)
Theorem absent_description_raises (py_int : str -> option Z) (st : state) :
  PHPArgument_run py_int (subject_of param_no_description) st = (inl TypeError, st)
  /\ PHPSee_run py_int (subject_of see_no_description) st = (inl TypeError, st)
  /\ PHPThrows_run py_int (subject_of throws_no_description) st
     = (inr tt,
        State (content st
               ++ [(lit "   :raises Exception: ",
                    lit "filename unknown:0:<autophpdoc>")])
              (seen_namespaces st)).
Proof.
  repeat split.
Qed.

(** In general, a tag without the attribute makes the renderer raise. *)
Lemma PHPArgument_run_absent py_int s st :
  node_get s (lit "variable") = None
  \/ node_get s (lit "type") = None
  \/ node_get s (lit "description") = None ->
  PHPArgument_run py_int s st = (inl TypeError, st).
Proof.
  unfold PHPArgument_run, bind, lift, trim_py.
  destruct (node_get s (lit "variable")); [|reflexivity].
  destruct (node_get s (lit "type")); [|reflexivity].
  destruct (node_get s (lit "description")); [|reflexivity].
  intros [H|[H|H]]; discriminate.
Qed.

Lemma PHPReturn_run_absent py_int s st :
  node_get s (lit "type") = None \/ node_get s (lit "description") = None ->
  PHPReturn_run py_int s st = (inl TypeError, st).
Proof.
  unfold PHPReturn_run, bind, lift, trim_py.
  destruct (node_get s (lit "type")); [|reflexivity].
  destruct (node_get s (lit "description")); [|reflexivity].
  intros [H|H]; discriminate.
Qed.

(** ** The line buffer and the registry of namespaces *)

Lemma content_append_eq l src st :
  content_append l src st
  = (inr tt, State (content st ++ [(l, src)]) (seen_namespaces st)).
Proof. reflexivity. Qed.

(** A text without line boundary is one line. *)
Lemma splitlines_aux_one cur s :
  forallb (fun c => negb (is_linebreak c)) s = true ->
  cur ++ s <> [] ->
  splitlines_aux false cur s = [cur ++ s].
Proof.
  revert cur; induction s as [|c r IH]; intros cur Hs Hne; simpl.
  - rewrite app_nil_r in *. destruct cur; congruence.
  - simpl in Hs. apply andb_true_iff in Hs as [Hc Hr].
    apply negb_true_iff in Hc. rewrite Hc.
    rewrite IH; auto.
    + now rewrite <- app_assoc.
    + rewrite <- app_assoc. simpl. now destruct cur.
Qed.

Lemma tagged_lines_one s n text :
  forallb (fun c => negb (is_linebreak c)) text = true ->
  text <> [] ->
  tagged_lines s n text
  = [(repeat_char 32 (indent s) ++ text, source_tag (get_filename s) n 0)].
Proof.
  intros H Hne. unfold tagged_lines, splitlines, py_splitlines.
  now rewrite (splitlines_aux_one [] text H Hne).
Qed.

(** C4: with a readable line number, [append_ns] emits the declaration of
    the namespace; a namespace that is not in the registry is added to it
    and gets no [:noindex:] line, a namespace that is in the registry gets
    the [:noindex:] line and the registry stays as it is. *)
Theorem append_ns_dedup (py_int : str -> option Z) (s : Subject) (st : state)
    (n : Z) :
  get_lineno py_int s = inr n ->
  let ns := get_namespace s in
  let decl := tagged_lines s n (lit ".. php:namespace:: " ++ ns) in
  let noindex := (repeat_char 32 (indent s) ++ lit "   :noindex:",
                  source_tag (get_filename s) n 0) in
  (ns ∉ seen_namespaces st ->
   append_ns py_int s st
   = (inr tt, State (content st ++ decl ++ [([], [])])
                    ({[ ns ]} ∪ seen_namespaces st)))
  /\ (ns ∈ seen_namespaces st ->
      append_ns py_int s st
      = (inr tt, State (content st ++ decl ++ [noindex] ++ [([], [])])
                       (seen_namespaces st)))
  /\ ns ∈ seen_namespaces (snd (append_ns py_int s st))
  /\ (forallb (fun c => negb (is_linebreak c)) ns = true ->
      decl = [(repeat_char 32 (indent s) ++ lit ".. php:namespace:: " ++ ns,
               source_tag (get_filename s) n 0)]).
Proof.
  intros Hn ns decl noindex.
  assert (H1 : ns ∉ seen_namespaces st ->
               append_ns py_int s st
               = (inr tt, State (content st ++ decl ++ [([], [])])
                                ({[ ns ]} ∪ seen_namespaces st))).
  { intros Hns. unfold append_ns. fold ns.
    erewrite bind_ok; [|apply append_ok, Hn]. fold decl.
    erewrite bind_ok.
    2:{ cbn [seen_namespaces]. destruct (decide (ns ∈ seen_namespaces st)); [contradiction|].
        reflexivity. }
    unfold nl. rewrite content_append_eq. cbn [content seen_namespaces].
    now rewrite <- app_assoc. }
  assert (H2 : ns ∈ seen_namespaces st ->
               append_ns py_int s st
               = (inr tt, State (content st ++ decl ++ [noindex] ++ [([], [])])
                                (seen_namespaces st))).
  { intros Hns. unfold append_ns. fold ns.
    erewrite bind_ok; [|apply append_ok, Hn]. fold decl.
    erewrite bind_ok.
    2:{ cbn [seen_namespaces]. destruct (decide (ns ∈ seen_namespaces st)); [|contradiction].
        rewrite (append_ok _ _ _ _ _ Hn). reflexivity. }
    unfold nl. rewrite content_append_eq. cbn [content seen_namespaces].
    rewrite <- !app_assoc. reflexivity. }
  repeat split; auto.
  - destruct (decide (ns ∈ seen_namespaces st)) as [Hin|Hnin].
    + now rewrite (H2 Hin).
    + rewrite (H1 Hnin). cbn [snd seen_namespaces]. set_solver.
  - intros Hlb. apply tagged_lines_one; [|discriminate].
    exact Hlb.
Qed.

(** Where the line number of the node does not convert, [append_ns]
    raises before it writes or registers anything. *)
Lemma append_ns_unreadable_line py_int s st e :
  get_lineno py_int s = inl e -> append_ns py_int s st = (inl e, st).
Proof.
  intros H. unfold append_ns. apply bind_err. now apply append_err.
Qed.

Lemma append_ns_dedup_witness :
  get_lineno int_ascii (models_subject "load" "5") = inr 5%Z
  /\ append_ns int_ascii (models_subject "load" "5") (State [] ∅)
     = (inr tt,
        State [(lit ".. php:namespace:: App\Models",
                lit "src/Models.php:5:<autophpdoc>");
               ([], [])]
              ({[ lit "App\Models" ]} ∪ ∅)).
Proof.
  split; [reflexivity|].
  destruct (append_ns_dedup int_ascii (models_subject "load" "5") (State [] ∅) 5%Z
              eq_refl) as (H & _).
  apply H. vm_compute. discriminate.
Defined.

(** The scenario of the specification: the second entity of a namespace
    gets the [:noindex:] line. *)
Example append_ns_twice :
  (append_ns int_ascii (models_subject "load" "5") ;;
   append_ns int_ascii (models_subject "save" "9")) (State [] ∅)
  = (inr tt,
     State [(lit ".. php:namespace:: App\Models", lit "src/Models.php:5:<autophpdoc>");
            ([], []);
            (lit ".. php:namespace:: App\Models", lit "src/Models.php:9:<autophpdoc>");
            (lit "   :noindex:", lit "src/Models.php:9:<autophpdoc>");
            ([], [])]
           ({[ lit "App\Models" ]} ∪ ∅)).
Proof. vm_compute. reflexivity. Qed.

(** ** What every renderer does to the state

    A renderer only adds lines to the buffer, each of them a blank line
    without source or a line with a provenance, and only adds namespaces
    to the registry; this also holds where it raises. *)

Lemma extends_refl st : extends st st.
Proof.
  split; [|set_solver]. exists []. split; [now rewrite app_nil_r|constructor].
Qed.

Lemma extends_trans st1 st2 st3 :
  extends st1 st2 -> extends st2 st3 -> extends st1 st3.
Proof.
  intros [(n1 & H1 & F1) S1] [(n2 & H2 & F2) S2]. split; [|set_solver].
  exists (n1 ++ n2). split.
  - now rewrite H2, H1, app_assoc.
  - apply Forall_app; auto.
Qed.

Lemma extending_ret {A} (a : A) : extending (ret a).
Proof. intros st. apply extends_refl. Qed.

Lemma extending_raise {A} e : extending (@raise A e).
Proof. intros st. apply extends_refl. Qed.

Lemma extending_lift {A} (r : result A) : extending (lift r).
Proof. intros st. apply extends_refl. Qed.

Lemma extending_bind {A B} (m : M A) (k : A -> M B) :
  extending m -> (forall a, extending (k a)) -> extending (bind m k).
Proof.
  intros Hm Hk st. unfold bind. specialize (Hm st).
  destruct (m st) as [[e|a] st']; simpl in *; auto.
  eapply extends_trans; [exact Hm|apply Hk].
Qed.

Lemma extending_for {A} (l : list A) (body : A -> M unit) :
  (forall a, extending (body a)) -> extending (for_ l body).
Proof.
  intros Hb. induction l as [|x l IH]; simpl.
  - apply extending_ret.
  - apply extending_bind; auto.
Qed.

Lemma extending_content_append l src :
  blank (l, src) \/ tagged (l, src) -> extending (content_append l src).
Proof.
  intros H st. split; [|set_solver]. exists [(l, src)]. split; auto.
Qed.

Lemma tagged_lines_tagged s n text :
  Forall (fun e => blank e \/ tagged e) (tagged_lines s n text).
Proof.
  unfold tagged_lines. apply Forall_forall. intros e He.
  apply elem_of_lookup_imap in He as (i & l & -> & _).
  right. exists (get_filename s), (n + Z.of_nat i)%Z. reflexivity.
Qed.

Lemma extending_append py_int s text : extending (append py_int s text).
Proof.
  intros st. destruct (get_lineno py_int s) as [e|n] eqn:E.
  - rewrite (append_err _ _ _ _ _ E). apply extends_refl.
  - rewrite (append_ok _ _ _ _ _ E). split; [|set_solver].
    exists (tagged_lines s n text). split; auto using tagged_lines_tagged.
Qed.

Lemma extending_nl s : extending (nl s).
Proof. apply extending_content_append. now left. Qed.

Create HintDb extending.

#[local] Hint Resolve extending_ret extending_raise extending_lift
  extending_append extending_nl : extending.

(** The structure of a renderer: binds, loops and branches. *)
Ltac extending_step :=
  match goal with
  | |- extending (bind _ _) => apply extending_bind; [|intros ?]
  | |- extending (for_ _ _) => apply extending_for; intros ?
  | |- extending (match ?x with _ => _ end) => destruct x
  | |- extending (let _ := _ in _) => cbv zeta
  | |- extending _ => solve [auto with extending]
  end.

Ltac extending := repeat extending_step.

Lemma extending_append_ns py_int s : extending (append_ns py_int s).
Proof.
  unfold append_ns. extending.
  intros st. destruct (decide (get_namespace s ∈ seen_namespaces st)).
  - apply extending_append.
  - split; [|cbn; set_solver]. exists []. split; [cbn; now rewrite app_nil_r|constructor].
Qed.

#[local] Hint Resolve extending_append_ns : extending.

Lemma extending_PHPSee_run py_int s : extending (PHPSee_run py_int s).
Proof. unfold PHPSee_run. extending. Qed.

#[local] Hint Resolve extending_PHPSee_run : extending.

Lemma extending_append_desc py_int s : extending (append_desc py_int s).
Proof. unfold append_desc. extending. Qed.

#[local] Hint Resolve extending_append_desc : extending.

Lemma extending_underscore py_int s text c : extending (underscore py_int s text c).
Proof. unfold underscore. extending. Qed.

Lemma extending_PHPArgument_run py_int s : extending (PHPArgument_run py_int s).
Proof. unfold PHPArgument_run. extending. Qed.

Lemma extending_PHPReturn_run py_int s : extending (PHPReturn_run py_int s).
Proof. unfold PHPReturn_run. extending. Qed.

Lemma extending_PHPThrows_run py_int s : extending (PHPThrows_run py_int s).
Proof. unfold PHPThrows_run. extending. Qed.

#[local] Hint Resolve extending_underscore extending_PHPArgument_run
  extending_PHPReturn_run extending_PHPThrows_run : extending.

Lemma extending_PHPVariable_run py_int s : extending (PHPVariable_run py_int s).
Proof. unfold PHPVariable_run. extending. Qed.

#[local] Hint Resolve extending_PHPVariable_run : extending.

Lemma extending_PHPConstant_run py_int s : extending (PHPConstant_run py_int s).
Proof. unfold PHPConstant_run. extending. Qed.

Lemma extending_PHPProperty_run py_int s : extending (PHPProperty_run py_int s).
Proof. unfold PHPProperty_run. extending. Qed.

Lemma extending_PHPCallable_run py_int s : extending (PHPCallable_run py_int s).
Proof. unfold PHPCallable_run. extending. Qed.

#[local] Hint Resolve extending_PHPConstant_run extending_PHPProperty_run
  extending_PHPCallable_run : extending.

Lemma extending_PHPFunction_run py_int s : extending (PHPFunction_run py_int s).
Proof. unfold PHPFunction_run. extending. Qed.

Lemma extending_PHPMethod_run py_int s : extending (PHPMethod_run py_int s).
Proof. unfold PHPMethod_run. extending. Qed.

#[local] Hint Resolve extending_PHPFunction_run extending_PHPMethod_run : extending.

Lemma extending_PHPClass_run py_int s : extending (PHPClass_run py_int s).
Proof. unfold PHPClass_run. extending. Qed.

#[local] Hint Resolve extending_PHPClass_run : extending.

Lemma extending_PHPModule_run py_int s : extending (PHPModule_run py_int s).
Proof. unfold PHPModule_run, PHPModule_members. extending. Qed.

#[local] Hint Resolve extending_PHPModule_run : extending.

Lemma extending_dispatch py_int d objtype n : extending (dispatch py_int d objtype n).
Proof. unfold dispatch. extending. Qed.

(** ** Provenance of the emitted lines *)

(** C9, as stated, fails: the blank separator lines are appended with an
    empty source. *)
Lemma blank_lines_have_no_source :
  ~ Forall tagged
      (content (snd (PHPFunction_run int_ascii (models_subject "load" "5")
                       (State [] ∅)))).
Proof.
  intros H. rewrite Forall_forall in H. specialize (H ([], [])).
  assert (Hin : In ([], []) (content (snd (PHPFunction_run int_ascii
                  (models_subject "load" "5") (State [] ∅)))))
    by (vm_compute; right; left; reflexivity).
  destruct (H (proj2 (list_elem_of_In _ _) Hin)) as (file & z & Hz).
  destruct file; discriminate.
Qed.

(** C9 (amended): every line written by [append] has the source
    [file:line:<autophpdoc>], the file being the [path] of the enclosing
    [file] element or [filename unknown], the line the number of the node
    (its own [line], else the [line] of its first docblock, else 0) plus
    the index of the line in the appended text; the separator lines written
    by [nl] have the empty source; and the buffer of a rendering consists of
    such lines only. *)
Theorem emitted_lines_provenance (py_int : str -> option Z) (s : Subject)
    (text : str) (st : state) (d : AutoDirective) (objtype : str) (n : xnode) :
  (forall z, get_lineno py_int s = inr z ->
     append py_int s text st
     = (inr tt,
        State (content st
               ++ imap (fun i l => (l, get_filename s ++ lit ":"
                                       ++ dec (z + Z.of_nat i) ++ lit ":<autophpdoc>"))
                       (splitlines s text))
              (seen_namespaces st)))
  /\ nl s st = (inr tt, State (content st ++ [([], [])]) (seen_namespaces st))
  /\ (forall l, node_get s (lit "line") = Some l ->
        get_lineno py_int s = int_py py_int l)
  /\ (forall l r, node_get s (lit "line") = None ->
        attr_step (lit "line") (child_step (lit "docblock") [node s]) = l :: r ->
        get_lineno py_int s = int_py py_int (strip l))
  /\ (node_get s (lit "line") = None ->
        attr_step (lit "line") (child_step (lit "docblock") [node s]) = [] ->
        get_lineno py_int s = inr 0%Z)
  /\ (file_paths (node s) = [] -> get_filename s = lit "filename unknown")
  /\ (forall p r, file_paths (node s) = p :: r -> get_filename s = strip p)
  /\ extends st (snd (dispatch py_int d objtype n st)).
Proof.
  repeat split.
  - intros z Hz. now rewrite (append_ok _ _ _ _ _ Hz).
  - intros l Hl. unfold get_lineno. now rewrite Hl.
  - intros l r Hl Hd. unfold get_lineno. now rewrite Hl, Hd.
  - intros Hl Hd. unfold get_lineno. now rewrite Hl, Hd.
  - intros Hf. unfold get_filename. now rewrite Hf.
  - intros p r Hf. unfold get_filename. now rewrite Hf.
  - apply extending_dispatch.
  - apply extending_dispatch.
Qed.

Lemma emitted_lines_provenance_witness :
  append int_ascii (models_subject "load" "5") (lit "one" ++ [10] ++ lit "two")
         (State [] ∅)
  = (inr tt,
     State [(lit "one", lit "src/Models.php:5:<autophpdoc>");
            (lit "two", lit "src/Models.php:6:<autophpdoc>")] ∅).
Proof.
  destruct (emitted_lines_provenance int_ascii (models_subject "load" "5")
              (lit "one" ++ [10] ++ lit "two") (State [] ∅) directive_plain
              (lit "function") (XNode models_file [])) as (H & _).
  apply (H 5%Z). reflexivity.
Defined.

(** ** The [members] option of a module *)

(** With the list of names [load] the module renders none of its
    members, with [True] it renders them. *)
Lemma members_list_differs_from_true :
  PHPModule_run int_ascii
    (with_members models_module (VList [lit "load"]) (VBool false)) (State [] ∅)
  <> PHPModule_run int_ascii
       (with_members models_module (VBool true) (VBool false)) (State [] ∅).
Proof.
  intros H. apply (f_equal (fun r => length (content (snd r)))) in H.
  vm_compute in H. discriminate.
Qed.

Lemma split_aux_nonempty c cur s : split_aux c cur s <> [].
Proof.
  revert cur; induction s as [|x r IH]; intros cur; simpl; [discriminate|].
  destruct (eqc x c); [discriminate|apply IH].
Qed.

Lemma get_opt_members_list s l c :
  l <> [] ->
  get_opt (directive (with_members s (VList l) c)) (lit "members") false
  = inr (VList l).
Proof.
  intros Hl. unfold get_opt, options_get, with_members. cbn [directive options].
  rewrite lookup_insert_eq. cbn [default truthy].
  destruct l; [congruence|]. reflexivity.
Qed.

Lemma get_opt_members_off s :
  get_opt (directive (with_members s (VBool false) (VBool false))) (lit "members") false
  = inr (VBool false).
Proof.
  unfold get_opt, options_get, with_members. cbn [directive options].
  rewrite lookup_insert_eq. reflexivity.
Qed.

Lemma get_opt_title_with_members s opt cfg :
  get_opt (directive (with_members s opt cfg)) (lit "title") false
  = get_opt (directive s) (lit "title") false.
Proof.
  unfold get_opt, options_get, with_members. cbn [directive options config].
  rewrite lookup_insert_ne by discriminate. reflexivity.
Qed.

(** C2 (the code differs): a list of names is not [True], so with it
    [PHPModule.run] does not recurse into the members at all, also not into
    the members the list names: the module is rendered as with [members]
    false, whatever the setting of the build, and not as with [True].  The
    list [members_option] makes of an argument is never empty, so the
    option that says which members to include includes none. *)
Theorem members_list_renders_no_members (py_int : str -> option Z) (s : Subject)
    (l : list str) (c : value) (st : state) :
  l <> [] ->
  PHPModule_run py_int (with_members s (VList l) c) st
  = PHPModule_run py_int (with_members s (VBool false) (VBool false)) st
  /\ forall arg, exists l', members_option (VStr arg) = inr (VList l') /\ l' <> [].
Proof.
  intros Hl. split.
  - unfold PHPModule_run.
    rewrite (get_opt_members_list s l c Hl), get_opt_members_off.
    rewrite !get_opt_title_with_members.
    reflexivity.
  - intros arg. eexists. split; [reflexivity|].
    unfold py_split. pose proof (split_aux_nonempty 44 [] arg) as H.
    destruct (split_aux 44 [] arg); [congruence|discriminate].
Qed.

Lemma members_list_renders_no_members_witness :
  PHPModule_run int_ascii
    (with_members models_module (VList [lit "load"]) (VBool true)) (State [] ∅)
  = PHPModule_run int_ascii
      (with_members models_module (VBool false) (VBool false)) (State [] ∅).
Proof.
  apply (members_list_renders_no_members int_ascii models_module [lit "load"]
           (VBool true) (State [] ∅)).
  discriminate.
Defined.

(** ** The order of strings *)

Lemma str_leb_refl a : str_leb a a = true.
Proof.
  induction a as [|x a IH]; simpl; auto.
  unfold eqc. rewrite N.eqb_refl, IH. apply orb_true_r.
Qed.

Lemma str_leb_total a b : str_leb a b = true \/ str_leb b a = true.
Proof.
  revert b; induction a as [|x a IH]; intros [|y b]; simpl; auto.
  unfold eqc. destruct (N.ltb_spec x y); simpl; auto.
  destruct (N.ltb_spec y x); simpl; auto.
  assert (x = y) as -> by lia. rewrite N.eqb_refl. simpl. apply IH.
Qed.

Lemma str_leb_cons x a y b :
  str_leb (x :: a) (y :: b) = true <-> x < y \/ (x = y /\ str_leb a b = true).
Proof.
  simpl. unfold eqc.
  rewrite orb_true_iff, andb_true_iff, N.ltb_lt, N.eqb_eq. tauto.
Qed.

Lemma str_leb_trans a b c :
  str_leb a b = true -> str_leb b c = true -> str_leb a c = true.
Proof.
  revert b c; induction a as [|x a IH]; intros [|y b] [|z c]; auto;
    try discriminate.
  rewrite !str_leb_cons. intros [H1|[-> H1]] [H2|[-> H2]].
  - left; lia.
  - now left.
  - now left.
  - right. split; auto. eapply IH; eauto.
Qed.

Lemma str_leb_antisym a b :
  str_leb a b = true -> str_leb b a = true -> a = b.
Proof.
  revert b; induction a as [|x a IH]; intros [|y b]; auto; try discriminate.
  rewrite !str_leb_cons. intros [H1|[-> H1]] [H2|[H2 H3]]; try lia.
  f_equal; auto.
Qed.

#[local] Instance str_le_total : Total str_le.
Proof. intros a b. apply str_leb_total. Qed.

#[local] Instance str_le_trans : Transitive str_le.
Proof. intros a b c. apply str_leb_trans. Qed.

#[local] Instance str_le_antisym : AntiSymm (=) str_le.
Proof. intros a b. apply str_leb_antisym. Qed.

(** Two sorted lists without duplicates of the same strings are equal. *)
Lemma merge_sort_str_unique (l1 l2 : list str) :
  NoDup l1 -> NoDup l2 -> (forall x, x ∈ l1 <-> x ∈ l2) ->
  merge_sort str_le l1 = merge_sort str_le l2.
Proof.
  intros N1 N2 H. apply (Sorted_unique str_le).
  - apply Sorted_merge_sort; apply _.
  - apply Sorted_merge_sort; apply _.
  - rewrite !merge_sort_Permutation. now apply NoDup_Permutation.
Qed.

(** ** The selection loop *)

Lemma ret_bind {A B} (a : A) (k : A -> M B) st : bind (ret a) k st = k a st.
Proof. reflexivity. Qed.

Lemma bind_assoc {A B C} (m : M A) (f : A -> M B) (g : B -> M C) st :
  bind (bind m f) g st = bind m (fun x => bind (f x) g) st.
Proof. unfold bind. destruct (m st) as [[e|a] st']; reflexivity. Qed.

Lemma bind_ext {A B} (m : M A) (k1 k2 : A -> M B) st :
  (forall a st', k1 a st' = k2 a st') -> bind m k1 st = bind m k2 st.
Proof. intros H. unfold bind. destruct (m st) as [[e|a] st']; auto. Qed.

Lemma lift_bind {A B} (a : A) (k : A -> M B) st : bind (lift (inr a)) k st = k a st.
Proof. reflexivity. Qed.

Lemma bind_cong {A B} (m m' : M A) (k : A -> M B) st :
  m st = m' st -> bind m k st = bind m' k st.
Proof. unfold bind. now intros ->. Qed.

Lemma for_app {A} (l1 l2 : list A) (body : A -> M unit) st :
  for_ (l1 ++ l2) body st = (for_ l1 body ;; for_ l2 body) st.
Proof.
  revert st; induction l1 as [|x l1 IH]; intros st; simpl.
  - reflexivity.
  - rewrite bind_assoc. apply bind_ext. intros _ st'. apply IH.
Qed.

Lemma py_sorted_strings (ps : list str) :
  py_sorted (map Some ps) = inr (map Some (merge_sort str_le ps)).
Proof.
  assert (Ho : omap id (map Some ps) = ps).
  { induction ps as [|p ps IH]; [reflexivity|].
    change (p :: omap id (map Some ps) = p :: ps). now f_equal. }
  assert (Hf : forallb (fun k : option str =>
                          match k with Some _ => true | None => false end)
                       (map Some ps) = true).
  { clear Ho. induction ps as [|p ps IH]; [reflexivity|exact IH]. }
  destruct ps as [|p [|q ps]]; try reflexivity.
  change (map Some (p :: q :: ps)) with (Some p :: Some q :: map Some ps) at 1.
  unfold py_sorted.
  change (Some p :: Some q :: map Some ps) with (map Some (p :: q :: ps)).
  rewrite Hf, Ho. reflexivity.
Qed.

Section Selection.

Variable re_compile : str -> option (str -> bool).
Variable xpath_other : element -> str -> result (list xnode).
Variable tree : element.
Variable render : xnode -> M unit.

Abbreviation xpath_files := (xpath_files re_compile xpath_other tree).
Abbreviation query_nodes := (query_nodes re_compile xpath_other tree).
Abbreviation query_ok := (query_ok re_compile xpath_other tree).
Abbreviation matched_paths := (matched_paths re_compile xpath_other tree).
Abbreviation last_match := (last_match re_compile xpath_other tree).
Abbreviation sorted_paths := (sorted_paths re_compile xpath_other tree).
Abbreviation block := (block re_compile xpath_other tree).
Abbreviation selection := (selection re_compile xpath_other tree).
Abbreviation visited_of := (visited_of re_compile xpath_other tree).
Abbreviation arguments_loop := (arguments_loop re_compile xpath_other render tree).

(** The match set of a plain pattern that is a regular expression: the
    [file] elements of the tree whose [path] the expression finds a match
    in. *)
Lemma query_nodes_plain a search n :
  plain a = true -> re_compile a = Some search ->
  n ∈ query_nodes a <->
  n ∈ descendants [] tree /\ tag (el n) = lit "file"
  /\ search (default [] (path_of n)) = true.
Proof using Type.
  intros Hp Hc. unfold query_nodes, xpath_files.
  rewrite Hp, Hc, list_elem_of_filter.
  split; intros H; repeat split; apply H.
Qed.

Lemma query_nodes_ok a nodes :
  xpath_files a = inr nodes -> query_nodes a = nodes.
Proof. unfold query_nodes. now intros ->. Qed.

Lemma query_nodes_raised a e :
  xpath_files a = inl e -> query_nodes a = [].
Proof. unfold query_nodes. now intros ->. Qed.

Lemma matched_paths_spec a p :
  p ∈ matched_paths a <->
  exists n, n ∈ query_nodes a /\ path_of n = Some p.
Proof. unfold matched_paths. rewrite list_elem_of_omap. reflexivity. Qed.

Lemma filenodes_lookup_aux (F : list xnode) (acc : gmap (option str) xnode) k :
  foldl (fun m n => <[ path_of n := n ]> m) acc F !! k
  = match last (filter (fun n => path_of n = k) F) with
    | Some n => Some n
    | None => acc !! k
    end.
Proof.
  revert acc; induction F as [|n F IH]; intros acc; simpl; auto.
  rewrite IH, filter_cons. destruct (decide (path_of n = k)) as [->|Hne].
  - rewrite last_cons, lookup_insert_eq.
    destruct (last _); reflexivity.
  - now rewrite lookup_insert_ne.
Qed.

Lemma filenodes_lookup (F : list xnode) k :
  filenodes_of F !! k = last (filter (fun n => path_of n = k) F).
Proof.
  unfold filenodes_of. rewrite filenodes_lookup_aux, lookup_empty.
  now destruct (last _).
Qed.

Lemma filenodes_lookup_Some (F : list xnode) k n :
  filenodes_of F !! k = Some n -> n ∈ F /\ path_of n = k.
Proof.
  rewrite filenodes_lookup. intros H.
  apply last_Some_elem_of, list_elem_of_filter in H. tauto.
Qed.

Lemma filenodes_lookup_is_Some (F : list xnode) n :
  n ∈ F -> is_Some (filenodes_of F !! path_of n).
Proof.
  intros Hn. rewrite filenodes_lookup.
  destruct (filter (fun n0 => path_of n0 = path_of n) F) as [|x l] eqn:E.
  - assert (n ∈ filter (fun n0 => path_of n0 = path_of n) F)
      by (apply list_elem_of_filter; auto).
    rewrite E in H. inversion H.
  - rewrite last_cons. destruct (last l); eauto.
Qed.

Lemma map_is_fmap {A B} (f : A -> B) (l : list A) : map f l = f <$> l.
Proof. reflexivity. Qed.

Lemma filter_ext_in {A} (P Q : A -> Prop) `{forall x, Decision (P x)}
    `{forall x, Decision (Q x)} (l : list A) :
  (forall x, x ∈ l -> (P x <-> Q x)) -> filter P l = filter Q l.
Proof.
  induction l as [|x l IH]; intros Hl; [reflexivity|].
  rewrite !filter_cons, IH.
  - destruct (decide (P x)) as [HP|HP], (decide (Q x)) as [HQ|HQ]; auto;
      exfalso; apply (Hl x) in HP || apply HP, (Hl x); auto; left.
  - intros y Hy. apply Hl. now right.
Qed.

Lemma Forall_is_Some_map {A} (ks : list (option A)) :
  Forall is_Some ks -> map Some (omap id ks) = ks.
Proof.
  induction 1 as [|k ks [p ->] _ IH]; [reflexivity|].
  change (Some p :: map Some (omap id ks) = Some p :: ks). now f_equal.
Qed.

(** The keys of [filenodes] are the matched paths, each once, where every
    node of the match set has a path. *)
Lemma filenodes_keys a :
  (forall n, n ∈ query_nodes a -> is_Some (path_of n)) ->
  exists ps,
    map fst (map_to_list (filenodes_of (query_nodes a))) = map Some ps
    /\ NoDup ps
    /\ forall p, p ∈ ps <-> p ∈ matched_paths a.
Proof.
  intros Hpaths. set (m := filenodes_of (query_nodes a)).
  assert (Hk : forall k, k ∈ map fst (map_to_list m) <->
                         exists n, n ∈ query_nodes a /\ path_of n = k).
  { intros k. rewrite map_is_fmap, list_elem_of_fmap. split.
    - intros ([k' n] & -> & Hkn). apply elem_of_map_to_list in Hkn.
      exists n. now apply filenodes_lookup_Some.
    - intros (n & Hn & <-).
      destruct (filenodes_lookup_is_Some _ _ Hn) as [n' Hn'].
      exists (path_of n, n'). split; auto. now apply elem_of_map_to_list. }
  assert (Hs : Forall is_Some (map fst (map_to_list m))).
  { apply Forall_forall. intros k Hin. apply Hk in Hin as (n & Hn & <-).
    now apply Hpaths. }
  exists (omap id (map fst (map_to_list m))). split; [|split].
  - symmetry. now apply Forall_is_Some_map.
  - apply (NoDup_fmap_1 Some). rewrite <- map_is_fmap, Forall_is_Some_map by auto.
    apply NoDup_fst_map_to_list.
  - intros p. rewrite matched_paths_spec, <- Hk, list_elem_of_omap. split.
    + intros (k & Hin & Hk'). simpl in Hk'. now subst.
    + intros Hin. exists (Some p). auto.
Qed.

Lemma sorted_paths_spec a p :
  p ∈ sorted_paths a <-> p ∈ matched_paths a.
Proof.
  unfold sorted_paths.
  now rewrite merge_sort_Permutation, elem_of_remove_dups.
Qed.

Lemma sorted_paths_NoDup a : NoDup (sorted_paths a).
Proof.
  unfold sorted_paths.
  rewrite merge_sort_Permutation. apply NoDup_remove_dups.
Qed.

Lemma py_sorted_keys a :
  (forall n, n ∈ query_nodes a -> is_Some (path_of n)) ->
  py_sorted (map fst (map_to_list (filenodes_of (query_nodes a))))
  = inr (map Some (sorted_paths a)).
Proof.
  intros Hpaths. destruct (filenodes_keys a Hpaths) as (ps & -> & Hn & Hp).
  rewrite py_sorted_strings. do 2 f_equal.
  unfold sorted_paths.
  apply merge_sort_str_unique; auto using NoDup_remove_dups.
  intros p. now rewrite elem_of_remove_dups.
Qed.

Lemma paths_loop_spec (m : gmap (option str) xnode) (ps : list str) :
  NoDup ps -> (forall p, p ∈ ps -> is_Some (m !! Some p)) ->
  forall V st,
    paths_loop render m (map Some ps) V st
    = (for_ (omap (fun p => m !! Some p) (filter (fun p => Some p ∉ V) ps)) render ;;
       ret (V ∪ list_to_set (map Some ps))) st.
Proof.
  induction ps as [|p ps IH]; intros Hnd Hm V st.
  - cbn. unfold ret. do 2 f_equal. set_solver.
  - apply NoDup_cons in Hnd as [Hp Hnd].
    assert (Hm' : forall q, q ∈ ps -> is_Some (m !! Some q))
      by (intros q Hq; apply Hm; now right).
    cbn [map paths_loop]. rewrite filter_cons.
    destruct (decide (Some p ∈ V)) as [Hin|Hnin].
    + destruct (decide (Some p ∉ V)) as [Hc|_]; [contradiction|].
      rewrite (IH Hnd Hm' V st).
      replace (V ∪ list_to_set (Some p :: map Some ps))
        with (V ∪ list_to_set (C := gset (option str)) (map Some ps)) by set_solver.
      reflexivity.
    + destruct (decide (Some p ∉ V)) as [_|Hc]; [|contradiction].
      destruct (Hm p) as [n Hn]; [now left|].
      cbn [omap]. rewrite Hn. cbn [for_ list_omap].
      change (omap (fun p0 => m !! Some p0)) with (list_omap (fun p0 => m !! Some p0)).
      cbn [list_omap]. rewrite Hn. cbn [for_].
      rewrite bind_assoc. apply bind_ext. intros _ st'.
      rewrite (IH Hnd Hm' ({[ Some p ]} ∪ V) st').
      replace ({[Some p]} ∪ V ∪ list_to_set (map Some ps))
        with (V ∪ list_to_set (C := gset (option str)) (Some p :: map Some ps))
        by set_solver.
      rewrite (filter_ext_in (fun q => Some q ∉ {[Some p]} ∪ V) (fun q => Some q ∉ V)).
      * reflexivity.
      * intros q Hq. assert (q <> p) by (intros ->; contradiction). set_solver.
Qed.

Lemma visited_of_spec earlier p :
  Some p ∈ visited_of earlier <->
  exists a, a ∈ earlier /\ p ∈ matched_paths a.
Proof.
  unfold visited_of.
  rewrite elem_of_list_to_set, map_is_fmap.
  rewrite (list_elem_of_fmap_inj Some), list_elem_of_In, in_flat_map.
  split; intros (a & Ha & Hp); exists a; split;
    try (now apply list_elem_of_In); auto.
Qed.

(** A path is visited exactly when the match set of an earlier pattern
    has it. *)
Lemma visited_of_test earlier p :
  Some p ∉ visited_of earlier <->
  Forall (fun a' => p ∉ matched_paths a') earlier.
Proof.
  rewrite visited_of_spec, Forall_forall. split.
  - intros Hn a' Ha' Hp. apply Hn. eauto.
  - intros Hf (a' & Ha' & Hp'). now apply (Hf a' Ha').
Qed.

Lemma visited_of_snoc earlier a :
  visited_of earlier ∪ list_to_set (map Some (sorted_paths a))
  = visited_of (earlier ++ [a]).
Proof.
  apply set_eq. intros [p|].
  - rewrite elem_of_union, elem_of_list_to_set, map_is_fmap.
    rewrite (list_elem_of_fmap_inj Some), sorted_paths_spec, !visited_of_spec.
    split.
    + intros [(a' & Ha' & Hp)|Hp].
      * exists a'. split; auto. apply elem_of_app. now left.
      * exists a. split; auto. apply elem_of_app. right. now left.
    + intros (a' & Ha' & Hp). apply elem_of_app in Ha' as [Ha'|Ha'].
      * left. eauto.
      * apply list_elem_of_singleton in Ha' as ->. now right.
  - unfold visited_of.
    rewrite elem_of_union, !elem_of_list_to_set, !map_is_fmap.
    rewrite !list_elem_of_fmap. split.
    + intros [(x & Hx & _)|(x & Hx & _)]; discriminate.
    + intros (x & Hx & _); discriminate.
Qed.

(** One turn of the loop over the patterns renders the block of the
    pattern. *)
Lemma block_loop earlier a st :
  paths_loop render (filenodes_of (query_nodes a))
             (map Some (sorted_paths a)) (visited_of earlier) st
  = (for_ (block earlier a) render ;;
     ret (visited_of (earlier ++ [a]))) st.
Proof.
  rewrite paths_loop_spec.
  - rewrite visited_of_snoc. unfold block.
    rewrite (filter_ext_in (fun p => Some p ∉ visited_of earlier)
               (fun p => Forall (fun a' => p ∉ matched_paths a') earlier)).
    + rewrite (list_omap_ext _ (last_match a) _
                 (filter (fun p => Forall (fun a' => p ∉ matched_paths a') earlier)
                         (sorted_paths a))); [reflexivity|].
      apply Forall2_same_length_lookup_2; [reflexivity|].
      intros i x y Hx Hy. assert (x = y) as -> by congruence.
      apply filenodes_lookup.
    + intros p Hp. apply visited_of_test.
  - apply sorted_paths_NoDup.
  - intros p Hp. apply sorted_paths_spec, matched_paths_spec in Hp as (n & Hn & Hpn).
    rewrite <- Hpn. now apply filenodes_lookup_is_Some.
Qed.

(** The loop over the patterns renders the selection of the patterns whose
    queries raise nothing, and goes on with the others. *)
Lemma arguments_loop_app args :
  Forall query_ok args ->
  forall more earlier st,
    arguments_loop (args ++ more) (visited_of earlier) st
    = (for_ (selection earlier args) render ;;
       arguments_loop more (visited_of (earlier ++ args))) st.
Proof.
  induction 1 as [|a rest [[nodes Hq] Hpaths] _ IH]; intros more earlier st.
  - cbn. now rewrite app_nil_r.
  - cbn [app arguments_loop selection].
    rewrite Hq, lift_bind. rewrite <- (query_nodes_ok _ _ Hq).
    rewrite (py_sorted_keys a Hpaths), lift_bind.
    rewrite (bind_cong _ _ _ _ (block_loop earlier a st)), bind_assoc.
    rewrite (bind_cong _ _ _ _ (for_app _ _ _ st)), bind_assoc.
    apply bind_ext. intros _ st'.
    rewrite ret_bind, IH. now rewrite <- app_assoc.
Qed.

Lemma arguments_loop_spec args :
  Forall query_ok args ->
  forall earlier st,
    arguments_loop args (visited_of earlier) st
    = (for_ (selection earlier args) render ;;
       ret (visited_of (earlier ++ args))) st.
Proof.
  intros Hok earlier st. rewrite <- (app_nil_r args) at 1.
  now rewrite (arguments_loop_app args Hok [] earlier st).
Qed.

(** The first pattern whose query raises ends the loop, with the
    exception of the query and after the files of the patterns before
    it. *)
Lemma arguments_loop_raise args bad rest e :
  Forall query_ok args -> xpath_files bad = inl e ->
  forall earlier st,
    arguments_loop (args ++ bad :: rest) (visited_of earlier) st
    = (for_ (selection earlier args) render ;; raise e) st.
Proof.
  intros Hok Hbad earlier st.
  rewrite (arguments_loop_app args Hok (bad :: rest) earlier st).
  apply bind_ext. intros _ st'.
  cbn [arguments_loop]. rewrite Hbad. reflexivity.
Qed.

Lemma last_match_Some a p :
  p ∈ matched_paths a ->
  exists n, last_match a p = Some n
            /\ n ∈ query_nodes a /\ path_of n = Some p.
Proof.
  intros Hp. apply matched_paths_spec in Hp as (n & Hn & Hpn).
  destruct (filenodes_lookup_is_Some _ _ Hn) as [n' Hn'].
  rewrite Hpn in Hn'. exists n'.
  unfold last_match. rewrite <- filenodes_lookup.
  split; auto. now apply filenodes_lookup_Some.
Qed.

Lemma omap_paths (f : str -> option xnode) (l : list str) :
  (forall p, p ∈ l -> exists n, f p = Some n /\ path_of n = Some p) ->
  map path_of (omap f l) = map Some l.
Proof.
  induction l as [|p l IH]; intros H; [reflexivity|].
  destruct (H p) as (n & Hn & Hp); [now left|].
  change (omap f (p :: l)) with (match f p with Some y => y :: omap f l | None => omap f l end).
  rewrite Hn. cbn [map]. rewrite Hp, IH; auto.
  intros q Hq. apply H. now right.
Qed.

(** The paths of a block: the sorted paths of the pattern that the match
    set of no earlier pattern has. *)
Lemma block_paths earlier a :
  map path_of (block earlier a)
  = map Some (filter (fun p => Forall (fun a' => p ∉ matched_paths a') earlier)
                     (sorted_paths a)).
Proof.
  unfold block. apply omap_paths. intros p Hp.
  apply list_elem_of_filter in Hp as [_ Hp]. apply sorted_paths_spec in Hp.
  destruct (last_match_Some a p Hp) as (n & Hn & _ & Hpn). eauto.
Qed.

Lemma StronglySorted_filter {A} (R : relation A) (P : A -> Prop)
    `{forall x, Decision (P x)} (l : list A) :
  StronglySorted R l -> StronglySorted R (filter P l).
Proof.
  induction 1 as [|x l Hs IH Hx]; [constructor|].
  rewrite filter_cons. destruct (decide (P x)); auto.
  constructor; auto. apply Forall_forall. intros y Hy.
  apply list_elem_of_filter in Hy as [_ Hy].
  rewrite Forall_forall in Hx. auto.
Qed.

Lemma block_sorted earlier a :
  exists ps, map path_of (block earlier a) = map Some ps
             /\ StronglySorted str_le ps /\ NoDup ps.
Proof.
  eexists. split; [apply block_paths|]. split.
  - apply StronglySorted_filter, StronglySorted_merge_sort; apply _.
  - apply NoDup_filter, sorted_paths_NoDup.
Qed.

Lemma block_elem earlier a n :
  n ∈ block earlier a ->
  exists p, path_of n = Some p /\ last_match a p = Some n
            /\ n ∈ query_nodes a
            /\ Forall (fun a' => p ∉ matched_paths a') earlier.
Proof.
  unfold block. rewrite list_elem_of_omap. intros (p & Hp & Hn).
  apply list_elem_of_filter in Hp as [Hf Hp]. apply sorted_paths_spec in Hp.
  destruct (last_match_Some a p Hp) as (n' & Hn' & Hx & Hpn).
  assert (n' = n) as -> by congruence. eauto.
Qed.

(** Every file of the selection is the last node, for its path, of the
    match set of the first pattern whose match set has the path. *)
Lemma selection_elem args :
  forall earlier n,
    n ∈ selection earlier args ->
    exists pre a post p,
      args = pre ++ a :: post /\ path_of n = Some p
      /\ last_match a p = Some n
      /\ n ∈ query_nodes a
      /\ Forall (fun a' => p ∉ matched_paths a') (earlier ++ pre).
Proof.
  induction args as [|a rest IH]; intros earlier n Hn; [inversion Hn|].
  cbn [selection] in Hn. apply elem_of_app in Hn as [Hn|Hn].
  - apply block_elem in Hn as (p & Hp & Hl & Hx & Hf).
    exists [], a, rest, p. rewrite app_nil_r. auto.
  - apply IH in Hn as (pre & a' & post & p & -> & Hp & Hl & Hx & Hf).
    exists (a :: pre), a', post, p. rewrite <- app_assoc in Hf. auto.
Qed.

Lemma selection_NoDup args :
  forall earlier, NoDup (map path_of (selection earlier args)).
Proof.
  induction args as [|a rest IH]; intros earlier; [constructor|].
  cbn [selection]. rewrite map_app. apply NoDup_app. split; [|split].
  - destruct (block_sorted earlier a) as (ps & -> & _ & Hn).
    now apply (NoDup_fmap_2 Some).
  - intros k Hk Hk'. rewrite map_is_fmap in Hk, Hk'.
    apply list_elem_of_fmap in Hk as (n & -> & Hn).
    apply list_elem_of_fmap in Hk' as (n' & Heq & Hn').
    apply block_elem in Hn as (p & Hp & _ & Hx & _).
    apply selection_elem in Hn' as (pre & a' & post & p' & _ & Hp' & _ & _ & Hf).
    assert (p' = p) as -> by congruence.
    rewrite Forall_forall in Hf. apply (Hf a).
    + apply elem_of_app. left. apply elem_of_app. right. now left.
    + apply matched_paths_spec. eauto.
  - apply IH.
Qed.

(** Every path of a match set is in the selection. *)
Lemma selection_covers args :
  forall earlier a p,
    a ∈ args -> p ∈ matched_paths a ->
    Forall (fun a' => p ∉ matched_paths a') earlier ->
    Some p ∈ map path_of (selection earlier args).
Proof.
  induction args as [|a0 rest IH]; intros earlier a p Ha Hp Hf; [inversion Ha|].
  cbn [selection]. rewrite map_app. apply elem_of_app.
  destruct (decide (p ∈ matched_paths a0)) as [Hin|Hnin].
  - left. rewrite block_paths, map_is_fmap. apply list_elem_of_fmap_2.
    apply list_elem_of_filter. split; auto. now apply sorted_paths_spec.
  - right. apply (IH (earlier ++ [a0]) a p); auto.
    + apply elem_of_cons in Ha as [->|Ha]; auto. contradiction.
    + apply Forall_app. split; auto.
Qed.

(** C5: the loop over the patterns renders the files of the selection
    in its order, where the query of every pattern raises nothing and
    returns files with paths: pattern by pattern; for a pattern the paths
    of its match set in lexicographic order, each once, with the last file
    of the path; without the paths the match set of an earlier pattern has.
    A pattern whose query raises ends the loop with its exception, after
    the files of the patterns before it.  No path is rendered twice, and
    every path of a match set is rendered, under the first pattern whose
    match set has it.  The match set of a plain pattern that is a regular
    expression is the set of the [file] elements whose path it finds a
    match in. *)
Theorem selection_order (args : list str) (st : state) :
  Forall query_ok args ->
  arguments_loop args ∅ st
  = (for_ (selection [] args) render ;; ret (visited_of args)) st
  /\ (forall bad rest e,
        xpath_files bad = inl e ->
        arguments_loop (args ++ bad :: rest) ∅ st
        = (for_ (selection [] args) render ;; raise e) st)
  /\ NoDup (map path_of (selection [] args))
  /\ (forall a n, a ∈ args -> n ∈ query_nodes a ->
        path_of n ∈ map path_of (selection [] args))
  /\ (forall n, n ∈ selection [] args ->
        exists pre a post p,
          args = pre ++ a :: post /\ path_of n = Some p
          /\ last_match a p = Some n
          /\ Forall (fun a' => p ∉ matched_paths a') pre)
  /\ (forall earlier a,
        exists ps, map path_of (block earlier a) = map Some ps
                   /\ StronglySorted str_le ps /\ NoDup ps)
  /\ (forall a search n,
        plain a = true -> re_compile a = Some search ->
        n ∈ query_nodes a <->
        n ∈ descendants [] tree /\ tag (el n) = lit "file"
        /\ search (default [] (path_of n)) = true).
Proof.
  intros Hok. split; [|split; [|split; [|split; [|split; [|split]]]]].
  - apply (arguments_loop_spec args Hok [] st).
  - intros bad rest e Hbad. apply (arguments_loop_raise args bad rest e Hok Hbad [] st).
  - apply selection_NoDup.
  - intros a n Ha Hn.
    rewrite Forall_forall in Hok. destruct (Hok a Ha) as [_ Hpaths].
    destruct (Hpaths n Hn) as [p Hp]. rewrite Hp.
    apply (selection_covers args [] a p); auto.
    apply matched_paths_spec. eauto.
  - intros n Hn.
    apply selection_elem in Hn as (pre & a & post & p & H1 & H2 & H3 & _ & H4).
    exists pre, a, post, p. auto.
  - apply block_sorted.
  - intros a search n. apply query_nodes_plain.
Qed.

End Selection.

(** A plain pattern that is a regular expression has a query that raises
    nothing; its files have paths where the files of the tree have. *)
Lemma query_ok_plain re_compile xpath_other tree a search :
  plain a = true -> re_compile a = Some search ->
  (forall n, n ∈ descendants [] tree -> tag (el n) = lit "file" ->
             search (default [] (path_of n)) = true -> is_Some (path_of n)) ->
  query_ok re_compile xpath_other tree a.
Proof.
  intros Hp Hc Hpaths. split.
  - unfold xpath_files. rewrite Hp, Hc. eauto.
  - intros n Hn.
    apply (query_nodes_plain re_compile xpath_other tree a search n Hp Hc) in Hn
      as (Hd & Ht & Hs).
    auto.
Qed.

(** X21: with a parsed tree, [run] renders the selection of its arguments
    with the renderer of its object type, from the empty buffer, where the
    query of every argument raises nothing and returns files with paths;
    the buffer is handed on where no renderer raises.  Where the query of
    an argument raises, after arguments whose queries do not, the files of
    the arguments before it are rendered and the exception of the query is
    the outcome, unless a renderer raises before: an error of the XML
    library is logged and no buffer handed on, any other exception is
    raised. *)
Lemma run_renders_selection py_int re_compile xpath_other etree_parse d seen v tree
    args :
  get_opt d (lit "structure_xml") false = inr v ->
  etree_parse v = inr tree ->
  Forall (query_ok re_compile xpath_other tree) args ->
  (arguments d = args ->
   run py_int re_compile xpath_other etree_parse d seen
   = match for_ (selection re_compile xpath_other tree [] args)
                (dispatch py_int (with_index d tree) (objtype_of (name d)))
                (State [] seen) with
     | (inr _, st) => (inr (Rendered (content st)), seen_namespaces st)
     | (inl LxmlError, st) => (inr Logged, seen_namespaces st)
     | (inl e, st) => (inl e, seen_namespaces st)
     end)
  /\ (forall bad rest e,
        arguments d = args ++ bad :: rest ->
        xpath_files re_compile xpath_other tree bad = inl e ->
        run py_int re_compile xpath_other etree_parse d seen
        = match for_ (selection re_compile xpath_other tree [] args)
                     (dispatch py_int (with_index d tree) (objtype_of (name d)))
                     (State [] seen) with
          | (inr _, st) =>
              (match e with LxmlError => inr Logged | _ => inl e end,
               seen_namespaces st)
          | (inl LxmlError, st) => (inr Logged, seen_namespaces st)
          | (inl e', st) => (inl e', seen_namespaces st)
          end).
Proof.
  intros Hv Hp Hok. split.
  - intros Ha. unfold run. rewrite Hv, Hp. cbn [arguments with_index]. rewrite Ha.
    rewrite (arguments_loop_spec re_compile xpath_other tree _ args Hok []
               (State [] seen)).
    unfold bind, ret.
    destruct (for_ _ _ _) as [[e|[]] st']; reflexivity.
  - intros bad rest e Ha Hbad. unfold run. rewrite Hv, Hp.
    cbn [arguments with_index]. rewrite Ha.
    rewrite (arguments_loop_raise re_compile xpath_other tree _ args bad rest e
               Hok Hbad [] (State [] seen)).
    unfold bind, raise.
    destruct (for_ _ _ _) as [[e'|[]] st']; [reflexivity|].
    now destruct e.
Qed.

Lemma two_files_have_paths :
  forall n, n ∈ descendants [] two_files -> tag (el n) = lit "file" ->
            is_Some (path_of n).
Proof.
  intros n Hn Ht. apply list_elem_of_In in Hn. simpl in Hn.
  destruct Hn as [<-|[<-|[<-|[]]]]; [discriminate Ht| |]; eexists; reflexivity.
Defined.

Lemma two_files_queries_ok :
  Forall (query_ok prefix_compile refuse_other two_files) [lit "src/a"; lit "src/"].
Proof.
  repeat constructor;
    (eapply query_ok_plain; [reflexivity|reflexivity|];
     intros n Hn Ht _; now apply two_files_have_paths).
Defined.

Lemma selection_order_witness :
  map path_of (selection prefix_compile refuse_other two_files []
                 [lit "src/a"; lit "src/"])
  = [Some (lit "src/a.php"); Some (lit "src/b.php")]
  /\ fst (arguments_loop prefix_compile refuse_other (fun _ => ret tt) two_files
            [lit "src/a"; lit "src/"; lit "b'c"; lit "src"] ∅ (State [] ∅))
     = inl LxmlError
  /\ NoDup (map path_of (selection prefix_compile refuse_other two_files []
                           [lit "src/a"; lit "src/"])).
Proof.
  split; [vm_compute; reflexivity|].
  split; [vm_compute; reflexivity|].
  apply (selection_order prefix_compile refuse_other two_files (fun _ => ret tt)
           [lit "src/a"; lit "src/"] (State [] ∅) two_files_queries_ok).
Defined.

Lemma trim_idempotent_iff_witness :
  trim (trim (lit " Says   hello ")) = trim (lit " Says   hello ").
Proof.
  apply (trim_idempotent_iff (lit " Says   hello ")).
  split; intros H;
    assert (E : has_match RE_TRIM (trim (lit " Says   hello ")) = true)
      by (apply has_match_RE_TRIM; auto);
    vm_compute in E; discriminate E.
Defined.

Lemma strip_braces_removes_groups_witness :
  strip_braces (lit "f (a) b" ++ [10] ++ lit "g (c) d")
  = lit "f" ++ strip_braces (lit " b" ++ [10] ++ lit "g (c) d").
Proof.
  refine (proj1 (proj2 strip_braces_removes_groups)
            (lit "f (a) b" ++ [10] ++ lit "g (c) d")
            (lit "f") (lit " ") (lit "a") (lit " b" ++ [10] ++ lit "g (c) d") _).
  repeat split.
  - intros [|x [|y a1]] a2 E; discriminate E.
  - repeat constructor.
  - simpl. intros [H|[]]. discriminate H.
Defined.

(** A file without [path] that a pattern matches together with a file
    with a path stops the invocation: [sorted] cannot compare [None] with
    a string. *)
Example pathless_file_mixed :
  fst (arguments_loop prefix_compile refuse_other (fun _ => ret tt) pathless_tree
         [[]] ∅ (State [] ∅))
  = inl TypeError.
Proof. vm_compute. reflexivity. Qed.

(** ** The scenario of the specification, end to end *)

Example greeter_module :
  run int_ascii prefix_compile refuse_other (fun _ => inr greeter_tree)
      greeter_directive ∅
  = (inr (Rendered
            [(lit ".. module:: src.Greeter", lit "src/Greeter.php:0:<autophpdoc>");
             ([], []); ([], []); ([], []);
             (lit ".. php:namespace:: ", lit "src/Greeter.php:0:<autophpdoc>");
             ([], []);
             (lit ".. php:function:: greet ()", lit "src/Greeter.php:0:<autophpdoc>");
             ([], []);
             (lit "   Says hello", lit "src/Greeter.php:0:<autophpdoc>");
             ([], []); ([], []);
             (lit "   :param string $name: the name", lit "src/Greeter.php:0:<autophpdoc>");
             (lit "   :returns: a greeting", lit "src/Greeter.php:0:<autophpdoc>");
             (lit "   :rtype: string", lit "src/Greeter.php:0:<autophpdoc>");
             ([], []); ([], [])]),
     {[ [] ]}).
Proof. vm_compute. reflexivity. Qed.

(** ** Further properties of the text functions *)

Lemma is_norm_app a c b :
  is_norm (a ++ c :: b) = true -> isspace c = true ->
  c = 32 /\ exists d b', b = d :: b' /\ isspace d = false.
Proof.
  induction a as [|x a IH]; cbn [app is_norm]; intros H Hc.
  - rewrite Hc in H. apply andb_true_iff in H as [H _].
    apply andb_true_iff in H as [H1 H2]. apply N.eqb_eq in H1.
    split; auto. destruct b as [|d b']; [discriminate|].
    exists d, b'. split; auto. now apply negb_true_iff in H2.
  - apply andb_true_iff in H as [_ H]. auto.
Qed.

(** X1: in the result of [trim] every white space character is a single
    blank between two characters that are no white space; in particular the
    result neither starts nor ends with white space. *)
Theorem trim_normal_form (x a b : str) (c : N) :
  trim x = a ++ c :: b -> isspace c = true ->
  c = 32
  /\ (exists a' e, a = a' ++ [e] /\ isspace e = false)
  /\ (exists d b', b = d :: b' /\ isspace d = false).
Proof.
  intros Hx Hc. destruct (trim_norm x) as [Hh Hn]. rewrite Hx in Hh, Hn.
  destruct (is_norm_app a c b Hn Hc) as [-> Hb]. split; [reflexivity|]. split; auto.
  induction a as [|e a' _] using rev_ind.
  - simpl in Hh. discriminate.
  - exists a', e. split; auto. destruct (isspace e) eqn:He; auto.
    rewrite <- app_assoc in Hn. cbn [app] in Hn.
    destruct (is_norm_app a' e (32 :: b) Hn He) as [_ (d & b' & Hd & Hs)].
    injection Hd as <- _. discriminate.
Qed.

Lemma trim_normal_form_witness :
  trim (lit " a   b ") = lit "a" ++ 32 :: lit "b"
  /\ exists d b', lit "b" = d :: b' /\ isspace d = false.
Proof.
  split; [reflexivity|].
  apply (trim_normal_form (lit " a   b ") (lit "a") (lit "b") 32); reflexivity.
Defined.

Lemma replace_char_inj c a b :
  replace_char c [c; c] a = replace_char c [c; c] b -> a = b.
Proof.
  revert b; induction a as [|x a IH]; intros [|y b]; cbn [replace_char]; auto.
  - destruct (eqc y c); discriminate.
  - destruct (eqc x c); discriminate.
  - unfold eqc. destruct (N.eqb_spec x c) as [->|Hx], (N.eqb_spec y c) as [->|Hy];
      cbn [app]; intros H.
    + injection H as H. f_equal. auto.
    + injection H as H _. congruence.
    + injection H as H _. congruence.
    + injection H as -> H. f_equal. auto.
Qed.

(** X2: [bs] tells apart any two names that differ in more than their
    leading backslashes: it is injective up to [lstrip]. *)
Theorem bs_injective (a b : str) :
  bs a = bs b <-> lstrip_by (eqc 92) a = lstrip_by (eqc 92) b.
Proof.
  unfold bs. split.
  - apply replace_char_inj.
  - now intros ->.
Qed.

(** ** Further properties of [strip_braces] *)

Lemma lstrip_In f s x : In x (lstrip_by f s) -> In x s.
Proof.
  induction s as [|c r IH]; simpl; auto.
  destruct (f c); simpl; auto.
Qed.

Lemma lstrip_app f s rest :
  lstrip_by f s <> [] -> lstrip_by f (s ++ rest) = lstrip_by f s ++ rest.
Proof.
  induction s as [|c r IH]; simpl; [congruence|].
  destruct (f c); auto.
Qed.

Lemma RE_BRACES_inside name rest :
  name <> [] -> ~ In 40 name -> last_ok name = true ->
  RE_BRACES (name ++ rest) = None.
Proof.
  intros Hne Hp Hl. unfold RE_BRACES. rewrite drop_span_len.
  pose proof (lstrip_nonempty name Hl Hne) as Hs.
  rewrite (lstrip_app _ _ _ Hs).
  destruct (lstrip_by isspace name) as [|d t] eqn:E; [congruence|].
  cbn [app]. unfold eqc. destruct (N.eqb_spec d 40) as [->|]; auto.
  exfalso. apply Hp, (lstrip_In isspace). rewrite E. now left.
Qed.

Lemma re_sub_RE_BRACES_prefix name rest :
  ~ In 40 name -> last_ok name = true ->
  re_sub RE_BRACES [] 0 (name ++ rest) = name ++ re_sub RE_BRACES [] 0 rest.
Proof.
  induction name as [|c r IH]; intros Hp Hl; [reflexivity|].
  change ((c :: r) ++ rest) with (c :: r ++ rest). cbn [re_sub].
  change (c :: r ++ rest) with ((c :: r) ++ rest).
  rewrite RE_BRACES_inside by (auto; discriminate).
  cbn [app]. f_equal. apply IH.
  - intros H. apply Hp. now right.
  - now apply last_ok_tail in Hl.
Qed.

Lemma last_paren_exact args :
  ~ In 10 args -> last_paren (args ++ [41]) = Some (S (length args)).
Proof.
  induction args as [|x args IH]; intros H; [reflexivity|].
  cbn [app last_paren length]. unfold eqc at 1.
  destruct (N.eqb_spec x 10) as [->|_]; [exfalso; apply H; now left|].
  rewrite IH; auto. intros H'. apply H. now right.
Qed.

Lemma re_sub_whole m s k :
  m s = Some k -> (length s <= k)%nat -> re_sub m [] 0 s = [].
Proof.
  destruct s as [|c r]; [reflexivity|]. intros Hm Hk. cbn [re_sub].
  rewrite Hm. destruct k as [|k]; [simpl in Hk; lia|].
  cbn [app]. rewrite re_sub_skip, drop_ge; [reflexivity|simpl in Hk; lia].
Qed.

(** The call part of a signature is one match of [RE_BRACES]. *)
Lemma strip_braces_call name ws args :
  ~ In 40 name -> last_ok name = true -> all_space ws -> ~ In 10 args ->
  strip_braces (name ++ ws ++ lit "(" ++ args ++ lit ")") = name.
Proof.
  intros Hp Hl Hw Ha. unfold strip_braces.
  rewrite re_sub_RE_BRACES_prefix by auto.
  rewrite (re_sub_whole RE_BRACES _ (length (ws ++ lit "(" ++ args ++ lit ")"))).
  - apply app_nil_r.
  - unfold RE_BRACES. change (lit "(" ++ args ++ lit ")") with (40 :: args ++ [41]).
    rewrite span_len_all_space by auto. rewrite drop_app_length.
    replace (eqc 40 40) with true by reflexivity.
    rewrite last_paren_exact by auto. f_equal.
    rewrite length_app. cbn [length]. rewrite length_app. simpl. lia.
  - lia.
Qed.

(** X3: from a signature, that is a name without parenthesis and without
    white space at its end, white space, and a parenthesised argument list
    on one line, [strip_braces] gives back the name. *)
Theorem strip_braces_signature (name ws args : str) :
  ~ In 40 name -> last_ok name = true -> all_space ws -> ~ In 10 args ->
  strip_braces (name ++ ws ++ lit "(" ++ args ++ lit ")") = name.
Proof. apply strip_braces_call. Qed.

Lemma strip_braces_signature_witness :
  strip_braces (lit "App\greet" ++ lit "  " ++ lit "(" ++ lit "$a, $b = (1)" ++ lit ")")
  = lit "App\greet".
Proof.
  apply (strip_braces_signature (lit "App\greet") (lit "  ") (lit "$a, $b = (1)")).
  - vm_compute. intuition discriminate.
  - reflexivity.
  - repeat constructor.
  - vm_compute. intuition discriminate.
Defined.

(** ** What the getters of a subject return *)

Lemma xpath_str_stripped r default :
  stripped default -> stripped (xpath_str r default).
Proof.
  intros Hd. destruct r as [[|n l]|[|x l]]; cbn [xpath_str]; auto; apply strip_ok.
Qed.

Lemma stripped_nil : stripped [].
Proof. split; reflexivity. Qed.

(** X4: every string a getter of [Subject] returns is stripped, be it read
    from the tree or the default: it neither starts nor ends with white
    space. *)
Theorem getters_stripped (s : Subject) :
  stripped (get_filename s) /\ stripped (get_description s)
  /\ stripped (get_long_description s) /\ stripped (get_name s)
  /\ stripped (get_value s) /\ stripped (get_full_name s)
  /\ stripped (get_type s) /\ stripped (get_namespace s)
  /\ stripped (PHPModule_get_name s).
Proof.
  repeat split; try (apply xpath_str_stripped; apply stripped_nil);
    try (apply (proj1 (xpath_str_stripped _ _ stripped_nil)));
    try (apply (proj2 (xpath_str_stripped _ _ stripped_nil)));
    unfold get_filename;
    first [ apply (proj1 (xpath_str_stripped _ (lit "filename unknown")
                            (conj eq_refl eq_refl)))
          | apply (proj2 (xpath_str_stripped _ (lit "filename unknown")
                            (conj eq_refl eq_refl))) ].
Qed.

(** X5: the signature [get_signature] builds normalises back to the name:
    where the name has no opening parenthesis and the argument names are on
    one line, [strip_braces] of the signature is [get_name]. *)
Theorem strip_braces_get_signature (s : Subject) :
  ~ In 40 (get_name s) ->
  ~ In 10 (join (lit ", ") (argument_names s)) ->
  strip_braces (get_signature s) = get_name s.
Proof.
  intros Hp Ha. unfold get_signature. fold (argument_names s).
  change (lit " (" ++ join (lit ", ") (argument_names s) ++ lit ")")
    with (lit " " ++ lit "(" ++ join (lit ", ") (argument_names s) ++ lit ")").
  apply strip_braces_call; auto.
  - apply (xpath_str_stripped _ _ stripped_nil).
  - repeat constructor.
Qed.

Lemma strip_braces_get_signature_witness :
  strip_braces (get_signature (models_subject "load" "5"))
  = get_name (models_subject "load" "5").
Proof.
  apply (strip_braces_get_signature (models_subject "load" "5"));
    vm_compute; intuition discriminate.
Defined.

(** ** The options of the directive *)

Lemma rstrip_In f s x : In x (rstrip_by f s) -> In x s.
Proof.
  induction s as [|c r IH]; simpl; auto.
  destruct (rstrip_by f r) as [|d t] eqn:E.
  - destruct (f c); simpl; tauto.
  - simpl. intros [H|H]; auto.
Qed.

Lemma strip_In s x : In x (strip s) -> In x s.
Proof. unfold strip. intros H. now apply rstrip_In, lstrip_In in H. Qed.

Lemma split_aux_no_sep c cur s x :
  ~ In c cur -> In x (split_aux c cur s) -> ~ In c x.
Proof.
  revert cur; induction s as [|y s IH]; intros cur Hc; cbn [split_aux].
  - intros [<-|[]]. exact Hc.
  - unfold eqc. destruct (N.eqb_spec y c) as [->|Hy].
    + intros [<-|H]; auto. apply (IH []); auto.
    + apply IH. rewrite in_app_iff. simpl. intuition.
Qed.

Lemma split_aux_length c cur s :
  length (split_aux c cur s) = S (count_occ N.eq_dec s c).
Proof.
  revert cur; induction s as [|y s IH]; intros cur; cbn [split_aux count_occ];
    [reflexivity|].
  unfold eqc. destruct (N.eqb_spec y c) as [Hy|Hy], (N.eq_dec y c) as [E|E];
    try congruence; cbn [length]; now rewrite IH.
Qed.

(** X6: the list [members_option] makes of a string has one name more than
    the string has commas, and every name is stripped and without comma. *)
Theorem members_option_names (arg : str) :
  exists l, members_option (VStr arg) = inr (VList l)
            /\ length l = S (count_occ N.eq_dec arg 44)
            /\ forall x, In x l -> stripped x /\ ~ In 44 x.
Proof.
  eexists. split; [reflexivity|]. split.
  - rewrite length_map. apply split_aux_length.
  - intros x Hx. apply in_map_iff in Hx as (y & Hxy & Hy). subst x. split.
    + apply strip_ok.
    + intros H. apply strip_In in H.
      apply (split_aux_no_sep 44 [] arg y (fun F => F) Hy H).
Qed.

(** X7: with [required], [get_opt] never returns a false value: where the
    plain lookup gives one, it raises the error that names the option and
    the setting; a true value and an exception of the lookup are passed
    on. *)
Theorem get_opt_required (d : AutoDirective) (opt : str) :
  (forall v, get_opt d opt true = inr v -> truthy v = true)
  /\ (forall v, get_opt d opt false = inr v -> truthy v = false ->
        get_opt d opt true = inl (AutoPHPDocError (required_msg opt)))
  /\ (forall v, get_opt d opt false = inr v -> truthy v = true ->
        get_opt d opt true = inr v)
  /\ (forall e, get_opt d opt false = inl e -> get_opt d opt true = inl e).
Proof.
  unfold get_opt.
  destruct (if truthy (options_get d opt) then _ else _) as [e|v]; cbn [andb].
  - repeat split; intros; congruence.
  - repeat split.
    + intros v'. destruct (truthy v) eqn:E; cbn [negb]; congruence.
    + intros v' [= <-] ->. reflexivity.
    + intros v' [= <-] ->. reflexivity.
    + intros e; discriminate.
Qed.

Lemma get_opt_required_witness :
  get_opt directive_plain (lit "structure_xml") true
  = inl (AutoPHPDocError (required_msg (lit "structure_xml"))).
Proof.
  destruct (get_opt_required directive_plain (lit "structure_xml")) as (_ & H & _).
  apply (H (VStr [])); reflexivity.
Defined.

(** ** Further properties of the line buffer *)

Lemma splitlines_aux_one_line after_cr cur s x :
  one_line cur -> In x (splitlines_aux after_cr cur s) -> one_line x.
Proof.
  revert after_cr cur; induction s as [|c r IH]; intros after_cr cur Hc;
    cbn [splitlines_aux].
  - destruct cur; [intros []|]. intros [<-|[]]. exact Hc.
  - destruct (after_cr && eqc c 10); [now apply IH|].
    destruct (is_linebreak c) eqn:E.
    + intros [<-|H]; auto. apply (IH _ [] ltac:(constructor) H).
    + apply IH. apply Forall_app. split; [exact Hc|].
      constructor; [exact E|constructor].
Qed.

Lemma one_line_forallb s :
  one_line s <-> forallb (fun c => negb (is_linebreak c)) s = true.
Proof.
  unfold one_line. rewrite forallb_forall, Forall_forall. split; intros H x Hx.
  - apply list_elem_of_In, H in Hx. now rewrite Hx.
  - apply list_elem_of_In, H in Hx. now apply negb_true_iff in Hx.
Qed.

(** X8: [append] writes one line for every line of the text; each starts
    with [indent] blanks, contains no line boundary after them, and has the
    source of the node with the index of the line added to its number. *)
Theorem append_lines (py_int : str -> option Z) (s : Subject) (text : str)
    (st : state) (n : Z) :
  get_lineno py_int s = inr n ->
  exists new,
    append py_int s text st
    = (inr tt, State (content st ++ new) (seen_namespaces st))
    /\ length new = length (py_splitlines text)
    /\ forall i l src, new !! i = Some (l, src) ->
         src = source_tag (get_filename s) n i
         /\ exists l0, l = repeat_char 32 (indent s) ++ l0 /\ one_line l0.
Proof.
  intros Hn. exists (tagged_lines s n text). split; [now apply append_ok|]. split.
  - unfold tagged_lines, splitlines. now rewrite length_imap, length_map.
  - intros i l src Hi. unfold tagged_lines, splitlines in Hi.
    rewrite list_lookup_imap in Hi.
    rewrite map_is_fmap, list_lookup_fmap in Hi.
    destruct (py_splitlines text !! i) as [l0|] eqn:E; [|discriminate].
    injection Hi as <- <-. split; [reflexivity|]. exists l0. split; auto.
    apply (splitlines_aux_one_line false [] text); [constructor|].
    apply list_elem_of_In, list_elem_of_lookup. eauto.
Qed.

Lemma append_lines_witness :
  exists new,
    append int_ascii (models_subject "load" "5") (lit "one" ++ [13; 10] ++ lit "two")
           (State [] ∅)
    = (inr tt, State ([] ++ new) ∅)
    /\ length new = 2%nat.
Proof.
  destruct (append_lines int_ascii (models_subject "load" "5")
              (lit "one" ++ [13; 10] ++ lit "two") (State [] ∅) 5%Z eq_refl)
    as (new & H1 & H2 & _).
  exists new. split; [exact H1|exact H2].
Defined.

(** X9: [PHPArgument.run] writes its line or nothing: where it raises, that
    is [TypeError] (an attribute is absent) or [ValueError] (the line number
    does not convert), and the buffer and the registry are as before. *)
Theorem PHPArgument_run_all_or_nothing (py_int : str -> option Z) (s : Subject)
    (st : state) :
  match PHPArgument_run py_int s st with
  | (inl e, st') => st' = st /\ (e = TypeError \/ e = ValueError)
  | (inr _, st') =>
      exists name type_ desc n,
        node_get s (lit "variable") = Some name
        /\ node_get s (lit "type") = Some type_
        /\ node_get s (lit "description") = Some desc
        /\ get_lineno py_int s = inr n
        /\ st' = State (content st
                        ++ tagged_lines s n
                             (lit ":param " ++ bs (trim type_) ++ lit " "
                              ++ trim name ++ lit ": " ++ trim desc))
                       (seen_namespaces st)
  end.
Proof.
  unfold PHPArgument_run, bind, lift, trim_py.
  destruct (node_get s (lit "variable")) as [name|]; [|auto].
  destruct (node_get s (lit "type")) as [type_|]; [|auto].
  destruct (node_get s (lit "description")) as [desc|]; [|auto].
  destruct (get_lineno py_int s) as [e|n] eqn:E.
  - rewrite (append_err _ _ _ _ _ E). split; auto.
    unfold get_lineno, int_py in E.
    repeat match type of E with
           | match ?x with _ => _ end = _ => destruct x
           end; try discriminate; injection E as <-; auto.
  - rewrite (append_ok _ _ _ _ _ E). exists name, type_, desc, n. auto 10.
Qed.

(** X10: the title and its underline have the same length: for a title of
    one line, [underscore] writes the title, as many underline characters
    as the title has characters, and a blank line; for the empty title it
    writes the blank line only. *)
Theorem underscore_same_length (py_int : str -> option Z) (s : Subject)
    (text : str) (c : N) (st : state) (n : Z) :
  get_lineno py_int s = inr n ->
  one_line text -> is_linebreak c = false ->
  underscore py_int s text c st
  = (inr tt,
     State (content st
            ++ match text with
               | [] => []
               | _ => [(repeat_char 32 (indent s) ++ text,
                        source_tag (get_filename s) n 0);
                       (repeat_char 32 (indent s) ++ repeat_char c (length text),
                        source_tag (get_filename s) n 0)]
               end
            ++ [([], [])])
           (seen_namespaces st)).
Proof.
  intros Hn Ht Hc. unfold underscore.
  erewrite bind_ok; [|apply append_ok, Hn].
  erewrite bind_ok; [|apply append_ok, Hn].
  unfold nl. rewrite content_append_eq. cbn [content seen_namespaces].
  destruct text as [|x text].
  { change (tagged_lines s n (repeat_char c (length []))) with (@nil line).
    change (tagged_lines s n []) with (@nil line).
    now rewrite !app_nil_r. }
  rewrite !tagged_lines_one; try discriminate.
  - now rewrite <- !app_assoc.
  - apply one_line_forallb. unfold repeat_char.
    apply Forall_forall. intros y Hy. apply list_elem_of_In, repeat_spec in Hy.
    now subst.
  - now apply one_line_forallb.
Qed.

Lemma underscore_same_length_witness :
  underscore int_ascii (models_subject "load" "5") (lit "main.php") 45 (State [] ∅)
  = (inr tt,
     State [(lit "main.php", lit "src/Models.php:5:<autophpdoc>");
            (lit "--------", lit "src/Models.php:5:<autophpdoc>");
            ([], [])] ∅).
Proof.
  apply (underscore_same_length int_ascii (models_subject "load" "5")
           (lit "main.php") 45 (State [] ∅) 5%Z).
  - reflexivity.
  - repeat constructor.
  - reflexivity.
Defined.

(** ** Further properties of [run] *)

Lemma extending_paths_loop_state (render : xnode -> M unit) m ps V :
  (forall n, extending (render n)) ->
  forall st, extends st (snd (paths_loop render m ps V st)).
Proof.
  intros Hr. revert V. induction ps as [|p ps IH]; intros V st; cbn [paths_loop].
  - apply extends_refl.
  - destruct (decide (p ∈ V)); [apply IH|].
    destruct (m !! p) as [nd|]; [|apply extends_refl].
    unfold bind. pose proof (Hr nd st) as H1.
    destruct (render nd st) as [[e|[]] st1]; [exact H1|].
    eapply extends_trans; [exact H1|apply IH].
Qed.

Lemma extending_arguments_loop_state re_compile xpath_other
    (render : xnode -> M unit) tree args :
  (forall n, extending (render n)) ->
  forall V st,
    extends st (snd (arguments_loop re_compile xpath_other render tree args V st)).
Proof.
  intros Hr. induction args as [|a args IH]; intros V st; cbn [arguments_loop].
  - apply extends_refl.
  - unfold bind at 1, lift.
    destruct (xpath_files re_compile xpath_other tree a) as [e|nodes];
      [apply extends_refl|].
    unfold bind at 1.
    destruct (py_sorted _) as [e|paths]; [apply extends_refl|].
    unfold bind.
    pose proof (extending_paths_loop_state render
                  (filenodes_of nodes) paths V Hr st) as H1.
    destruct (paths_loop _ _ _ _ _) as [[e|V'] st1]; [exact H1|].
    eapply extends_trans; [exact H1|apply IH].
Qed.

(** X11: whatever an invocation does, it takes no namespace out of the
    registry of the build, also where it raises or logs an error; and the
    buffer it hands to the pipeline holds only lines with a provenance and
    blank separator lines. *)
Theorem run_only_extends (py_int : str -> option Z)
    (re_compile : str -> option (str -> bool))
    (xpath_other : element -> str -> result (list xnode))
    (etree_parse : value -> result element) (d : AutoDirective) (seen : gset str) :
  seen ⊆ snd (run py_int re_compile xpath_other etree_parse d seen)
  /\ forall lines,
       fst (run py_int re_compile xpath_other etree_parse d seen)
       = inr (Rendered lines) ->
       Forall (fun e => blank e \/ tagged e) lines.
Proof.
  unfold run.
  destruct (get_opt d (lit "structure_xml") false) as [e|v];
    [split; [reflexivity|discriminate]|].
  destruct (etree_parse v) as [e|tree].
  { destruct e; (split; [reflexivity|discriminate]). }
  pose proof (extending_arguments_loop_state re_compile xpath_other
                (dispatch py_int (with_index d tree) (objtype_of (name d))) tree
                (arguments (with_index d tree))
                (extending_dispatch py_int _ _) ∅ (State [] seen)) as H.
  destruct (arguments_loop _ _ _ _ _ _ _) as [[e|V] st].
  - destruct H as [_ Hs]. destruct e; (split; [exact Hs|discriminate]).
  - destruct H as [(new & Hc & Hf) Hs]. split; [exact Hs|].
    intros lines [= <-]. simpl in Hc. now rewrite Hc.
Qed.

Lemma run_reaches_parser_witness :
  run int_ascii prefix_compile refuse_other (fun _ => inl LxmlError)
      two_files_directive ∅
  = (inr Logged, ∅).
Proof.
  apply (run_reaches_parser int_ascii prefix_compile refuse_other
           (fun _ => inl LxmlError)
           two_files_directive ∅ (VStr (lit "structure.xml")) LxmlError);
    reflexivity.
Defined.

Lemma run_renders_selection_witness :
  run int_ascii prefix_compile refuse_other (fun _ => inr two_files)
      two_files_directive ∅
  = match for_ (selection prefix_compile refuse_other two_files []
                  [lit "src/a"; lit "src/"])
               (dispatch int_ascii (with_index two_files_directive two_files)
                         (lit "module"))
               (State [] ∅) with
    | (inr _, st) => (inr (Rendered (content st)), seen_namespaces st)
    | (inl LxmlError, st) => (inr Logged, seen_namespaces st)
    | (inl e, st) => (inl e, seen_namespaces st)
    end.
Proof.
  refine (proj1 (run_renders_selection int_ascii prefix_compile refuse_other
                   (fun _ => inr two_files) two_files_directive ∅
                   (VStr (lit "structure.xml")) two_files
                   [lit "src/a"; lit "src/"] _ _ two_files_queries_ok) _);
    reflexivity.
Defined.

(** ** The registry after a namespace was declared *)

Lemma append_ns_registers py_int s st n :
  get_lineno py_int s = inr n ->
  exists st1, append_ns py_int s st = (inr tt, st1)
              /\ get_namespace s ∈ seen_namespaces st1.
Proof.
  intros Hn. unfold append_ns.
  erewrite bind_ok; [|apply append_ok, Hn].
  unfold bind at 1. cbn [seen_namespaces].
  destruct (decide (get_namespace s ∈ seen_namespaces st)) as [Hin|Hnin].
  - rewrite (append_ok _ _ _ _ _ Hn). eexists. split; [reflexivity|]. exact Hin.
  - eexists. split; [reflexivity|]. cbn. set_solver.
Qed.

Lemma registered_after_bind {A} (m : M unit) (k : unit -> M A) st st1 x :
  m st = (inr tt, st1) -> x ∈ seen_namespaces st1 -> extending (k tt) ->
  x ∈ seen_namespaces (snd (bind m k st)).
Proof.
  intros Hm Hx Hk. unfold bind. rewrite Hm.
  destruct (Hk st1) as [_ Hs]. set_solver.
Qed.

(** X12: once [append_ns] has run, the namespace of the node is in the
    registry at the end of the rendering of a function, a class or a
    constant, also where the rendering raises later on. *)
Theorem namespace_registered (py_int : str -> option Z) (s : Subject)
    (st : state) (n : Z) :
  get_lineno py_int s = inr n ->
  get_namespace s ∈ seen_namespaces (snd (PHPFunction_run py_int s st))
  /\ get_namespace s ∈ seen_namespaces (snd (PHPClass_run py_int s st))
  /\ get_namespace s ∈ seen_namespaces (snd (PHPConstant_run py_int s st)).
Proof.
  intros Hn. destruct (append_ns_registers py_int s st n Hn) as (st1 & H1 & H2).
  repeat split.
  - unfold PHPFunction_run. apply (registered_after_bind _ _ _ _ _ H1 H2).
    extending.
  - unfold PHPClass_run. apply (registered_after_bind _ _ _ _ _ H1 H2).
    extending.
  - unfold PHPConstant_run. apply (registered_after_bind _ _ _ _ _ H1 H2).
    extending.
Qed.

Lemma namespace_registered_witness :
  get_namespace (models_subject "load" "5")
  ∈ seen_namespaces (snd (PHPFunction_run int_ascii (models_subject "load" "5")
                            (State [] ∅))).
Proof.
  exact (proj1 (namespace_registered int_ascii (models_subject "load" "5")
                  (State [] ∅) 5%Z eq_refl)).
Defined.

(** ** The sets of names *)

Lemma foldl_add_spec (f : str -> str) (l : list str) (X : gset str) x :
  x ∈ foldl (fun acc k => {[ f k ]} ∪ acc) X l <->
  x ∈ X \/ exists k, In k l /\ x = f k.
Proof.
  revert X; induction l as [|k l IH]; intros X; cbn [foldl].
  - split; [auto|]. intros [H|(k & [] & _)]; exact H.
  - rewrite IH, elem_of_union, elem_of_singleton. split.
    + intros [[->|H]|(k' & Hk & ->)]; eauto.
      * right. exists k. split; [now left|reflexivity].
      * right. exists k'. split; [now right|reflexivity].
    + intros [H|(k' & [<-|Hk] & ->)]; eauto.
Qed.

Lemma index_braces_spec_aux (tree : element) (kind x : str) :
  (exists k, In k (full_names tree kind) /\ (x = k \/ x = strip_braces k)) ->
  x ∈ index_braces tree kind.
Proof.
  unfold index_braces, index_plain. rewrite foldl_add_spec.
  rewrite elem_of_list_to_set, list_elem_of_In.
  intros (k & Hk & [->| ->]); [now left|]. right. exists k. split; auto.
  now apply list_elem_of_In, elem_of_elements, elem_of_list_to_set,
    list_elem_of_In.
Qed.

(** X13: the set [run] builds for the functions and for the methods holds
    every full name of the tree and its form without braces, and nothing
    else. *)
Theorem index_braces_spec (tree : element) (kind x : str) :
  x ∈ index_braces tree kind <->
  exists k, In k (full_names tree kind) /\ (x = k \/ x = strip_braces k).
Proof.
  unfold index_braces, index_plain. rewrite foldl_add_spec.
  rewrite elem_of_list_to_set, list_elem_of_In. split.
  - intros [H|(k & Hk & ->)].
    + exists x. auto.
    + exists k. split; auto.
      now apply list_elem_of_In, elem_of_elements, elem_of_list_to_set,
        list_elem_of_In in Hk.
  - intros (k & Hk & [->| ->]); [now left|]. right. exists k. split; auto.
    now apply list_elem_of_In, elem_of_elements, elem_of_list_to_set,
      list_elem_of_In.
Qed.

(** X14: a function of the tree is found under its name without braces:
    with the sets of [run], [xref] of the stripped full name is a
    [php:func] reference, unless the name is also that of a class. *)
Theorem xref_indexed_function (d : AutoDirective) (tree : element) (n : xnode)
    (i : nat) (k : str) :
  In k (full_names tree (lit "function")) ->
  strip_braces k <> [] ->
  strip_braces k ∉ index_plain tree (lit "class") ->
  xref {| node := n; indent := i; directive := with_index d tree |} (strip_braces k)
  = lit ":php:func:`" ++ bs (strip_braces k) ++ lit "`".
Proof.
  intros Hk Hne Hc.
  assert (Hf : strip_braces k ∈ index_braces tree (lit "function"))
    by (apply index_braces_spec_aux; eauto).
  unfold xref. destruct (strip_braces k) as [|c r] eqn:E; [congruence|].
  cbn [directive with_index classes functions].
  destruct (decide (c :: r ∈ index_plain tree (lit "class"))); [contradiction|].
  destruct (decide (c :: r ∈ index_braces tree (lit "function"))); [|contradiction].
  destruct (decide (lit "php:func" <> lit "ref")) as [_|H]; [reflexivity|].
  exfalso. apply H. discriminate.
Qed.

Lemma xref_indexed_function_witness :
  xref {| node := XNode braces_tree []; indent := 0;
          directive := with_index directive_plain braces_tree |}
       (lit "\App\greet")
  = lit ":php:func:`App\\greet`".
Proof.
  apply (xref_indexed_function directive_plain braces_tree (XNode braces_tree [])
           0 (lit "\App\greet()")).
  - vm_compute. left. reflexivity.
  - vm_compute. discriminate.
  - vm_compute. discriminate.
Defined.

(** ** The renderer of an object type *)

Lemma bind_ret_tt (m : M unit) st : (m ;; ret tt) st = m st.
Proof. unfold bind, ret. destruct (m st) as [[e|[]] st']; reflexivity. Qed.

(** X15: [run] renders a file with the one renderer of the object type,
    and for any other object type it renders nothing and raises nothing. *)
Theorem dispatch_by_objtype (py_int : str -> option Z) (d : AutoDirective)
    (objtype : str) (n : xnode) (st : state) :
  let s := {| node := n; indent := 0; directive := d |} in
  (~ In objtype objtypes -> dispatch py_int d objtype n st = (inr tt, st))
  /\ dispatch py_int d (lit "module") n st = PHPModule_run py_int s st
  /\ dispatch py_int d (lit "class") n st = PHPClass_run py_int s st
  /\ dispatch py_int d (lit "method") n st = PHPMethod_run py_int s st
  /\ dispatch py_int d (lit "function") n st = PHPFunction_run py_int s st.
Proof.
  intros s. unfold dispatch. fold s. repeat split.
  - intros H. unfold objtypes in H. simpl in H.
    repeat (case_decide; [exfalso; apply H; subst; tauto|]). reflexivity.
  - repeat (case_decide; try discriminate; try congruence). unfold bind, ret.
    destruct (PHPModule_run py_int s st) as [[e|[]] st']; reflexivity.
  - repeat (case_decide; try discriminate; try congruence). unfold bind, ret.
    destruct (PHPClass_run py_int s st) as [[e|[]] st']; reflexivity.
  - repeat (case_decide; try discriminate; try congruence). unfold bind, ret.
    destruct (PHPMethod_run py_int s st) as [[e|[]] st']; reflexivity.
Qed.

Lemma dispatch_by_objtype_witness :
  dispatch int_ascii directive_plain (lit "automodule") (XNode models_file [])
           (State [] ∅)
  = (inr tt, State [] ∅).
Proof.
  refine (proj1 (dispatch_by_objtype int_ascii directive_plain (lit "automodule")
                   (XNode models_file []) (State [] ∅)) _).
  vm_compute. intuition discriminate.
Defined.

(** ** The two lines of a [return] tag *)

(** X16: the two lines of [PHPReturn.run] are independent: the
    [:returns:] line is written exactly where the trimmed description is
    not empty, the [:rtype:] line exactly where the trimmed type is not
    empty; where both are empty nothing is written, and the line number of
    the node is not even read. *)
Theorem PHPReturn_run_lines (py_int : str -> option Z) (s : Subject) (st : state)
    (type_ desc : str) :
  node_get s (lit "type") = Some type_ ->
  node_get s (lit "description") = Some desc ->
  (trim type_ = [] -> trim desc = [] -> PHPReturn_run py_int s st = (inr tt, st))
  /\ forall n, get_lineno py_int s = inr n ->
       PHPReturn_run py_int s st
       = (inr tt,
          State (content st
                 ++ match trim desc with
                    | [] => []
                    | _ => tagged_lines s n (lit ":returns: " ++ trim desc)
                    end
                 ++ match trim type_ with
                    | [] => []
                    | _ => tagged_lines s n (lit ":rtype: " ++ xref s (trim type_))
                    end)
                (seen_namespaces st)).
Proof.
  intros Ht Hd. unfold PHPReturn_run, lift, trim_py. rewrite Ht, Hd. split.
  - intros -> ->. destruct st. reflexivity.
  - intros n Hn. unfold bind at 1 2. unfold bind.
    destruct (trim desc) as [|c r]; destruct (trim type_) as [|c' r'].
    + cbn. rewrite app_nil_r. now destruct st.
    + cbn [ret]. rewrite (append_ok _ _ _ _ _ Hn). reflexivity.
    + rewrite (append_ok _ _ _ _ _ Hn). cbn [ret]. now rewrite app_nil_r.
    + rewrite (append_ok _ _ _ _ _ Hn). rewrite (append_ok _ _ _ _ _ Hn).
      cbn [content seen_namespaces]. now rewrite <- app_assoc.
Qed.

Lemma PHPReturn_run_lines_witness :
  PHPReturn_run int_ascii (subject_of return_type_only) (State [] ∅)
  = (inr tt,
     State [(lit "   :rtype: string", lit "filename unknown:0:<autophpdoc>")] ∅).
Proof.
  destruct (PHPReturn_run_lines int_ascii (subject_of return_type_only)
              (State [] ∅) (lit "string") [] eq_refl eq_refl) as [_ H].
  apply (H 0%Z). reflexivity.
Defined.

(** ** The name of a module *)

Lemma rfind_None c s : rfind c s = None -> ~ In c s.
Proof.
  induction s as [|x r IH]; cbn [rfind]; [tauto|].
  destruct (rfind c r); [discriminate|]. unfold eqc.
  destruct (N.eqb_spec x c); [discriminate|]. intros _ [H|H]; auto.
  now apply IH.
Qed.

Lemma rfind_Some c s i :
  rfind c s = Some i ->
  exists a b, s = a ++ c :: b /\ length a = i /\ ~ In c b.
Proof.
  revert i; induction s as [|x r IH]; intros i; cbn [rfind]; [discriminate|].
  destruct (rfind c r) as [j|] eqn:E.
  - intros [= <-]. destruct (IH j eq_refl) as (a & b & -> & <- & Hb).
    exists (x :: a), b. auto.
  - unfold eqc. destruct (N.eqb_spec x c) as [->|]; [|discriminate].
    intros [= <-]. exists [], r. repeat split; auto. now apply rfind_None.
Qed.

Lemma In_drop {A} (x : A) k l : In x (drop k l) -> In x l.
Proof.
  revert k; induction l as [|y l IH]; intros [|k]; simpl; auto.
  intros H. right. eapply IH, H.
Qed.

Lemma replace_char_not_in c d s : c <> d -> ~ In c (replace_char c [d] s).
Proof.
  intros Hcd. induction s as [|x r IH]; cbn [replace_char]; [tauto|].
  unfold eqc. destruct (N.eqb_spec x c) as [->|Hx]; cbn [app];
    intros [H|H]; auto; congruence.
Qed.

Lemma replace_char_length c d s : length (replace_char c [d] s) = length s.
Proof.
  induction s as [|x r IH]; cbn [replace_char]; [reflexivity|].
  destruct (eqc x c); cbn [app length]; now rewrite IH.
Qed.

Lemma rfind_not_in c s : ~ In c s -> rfind c s = None.
Proof.
  induction s as [|x r IH]; cbn [rfind]; [reflexivity|].
  intros H. rewrite IH by (intros H'; apply H; now right).
  unfold eqc. destruct (N.eqb_spec x c) as [->|]; [|reflexivity].
  exfalso. apply H. now left.
Qed.

Lemma rfind_last c a b : ~ In c b -> rfind c (a ++ c :: b) = Some (length a).
Proof.
  intros Hb. induction a as [|x a IH]; cbn [app rfind length].
  - rewrite (rfind_not_in c b Hb). unfold eqc. now rewrite N.eqb_refl.
  - now rewrite IH.
Qed.

(** The last component of a path starts after its directory part. *)
Lemma filename_index dir comp :
  dir_part dir -> ~ In 47 comp ->
  match rfind 47 (dir ++ comp) with Some sepIndex => S sepIndex | None => 0%nat end
  = length dir.
Proof.
  intros [->|[d ->]] Hc.
  - cbn [app]. now rewrite rfind_not_in.
  - rewrite <- app_assoc. cbn [app]. rewrite rfind_last by auto.
    rewrite length_app. simpl. lia.
Qed.

Lemma In_drop_middle {A} (x : A) k a b :
  (k <= length a)%nat -> In x (drop k (a ++ x :: b)).
Proof.
  revert k; induction a as [|y a IH]; intros k Hk.
  - simpl in Hk. assert (k = 0%nat) as -> by lia. now left.
  - destruct k as [|k]; [apply in_or_app; right; now left|].
    cbn [app drop]. apply IH. simpl in Hk. lia.
Qed.

Lemma existsb_take_dots k dots rest :
  Forall (fun c => c = 46) dots -> (k <= length dots)%nat ->
  existsb (fun c => negb (eqc c 46)) (take k (dots ++ rest)) = false.
Proof.
  intros Hd. revert k. induction Hd as [|x dots -> _ IH]; intros k Hk.
  - simpl in Hk. assert (k = 0%nat) as -> by lia. reflexivity.
  - destruct k as [|k]; [reflexivity|]. cbn [app take existsb].
    rewrite IH by (simpl in Hk; lia). reflexivity.
Qed.

Lemma existsb_not_dot base :
  (exists c, In c base /\ c <> 46) ->
  existsb (fun c => negb (eqc c 46)) base = true.
Proof.
  intros (c & Hin & Hc). apply existsb_exists. exists c. split; auto.
  unfold eqc. now destruct (N.eqb_spec c 46).
Qed.

(** The extension of a path is cut off at the last dot of the last
    component. *)
Lemma splitext_root_cuts dir base ext :
  dir_part dir -> ~ In 47 base -> (exists c, In c base /\ c <> 46) ->
  ~ In 46 ext -> ~ In 47 ext ->
  splitext_root (dir ++ base ++ 46 :: ext) = dir ++ base.
Proof.
  intros Hdir Hb Hc He46 He47. unfold splitext_root.
  rewrite (app_assoc dir base), rfind_last by auto.
  rewrite <- (app_assoc dir base).
  rewrite (filename_index dir (base ++ 46 :: ext) Hdir).
  - rewrite drop_app_length, length_app.
    replace (length dir + length base - length dir)%nat with (length base) by lia.
    rewrite take_app_length, (existsb_not_dot base Hc).
    rewrite (app_assoc dir base).
    replace (length dir + length base)%nat with (length (dir ++ base))
      by apply length_app.
    apply take_app_length.
  - intros H. apply in_app_or in H as [H|[H|H]]; auto. discriminate H.
Qed.

(** A last component whose only dots are at its start has no extension. *)
Lemma splitext_root_keeps dir dots rest :
  dir_part dir -> Forall (fun c => c = 46) dots -> ~ In 46 rest -> ~ In 47 rest ->
  splitext_root (dir ++ dots ++ rest) = dir ++ dots ++ rest.
Proof.
  intros Hdir Hd Hr46 Hr47. unfold splitext_root.
  destruct (rfind 46 (dir ++ dots ++ rest)) as [dotIndex|] eqn:Ed; [|reflexivity].
  rewrite (filename_index dir (dots ++ rest) Hdir).
  - rewrite drop_app_length.
    rewrite existsb_take_dots; auto.
    destruct (rfind_Some _ _ _ Ed) as (a & b & Hp & Hl & Hb).
    destruct (Nat.le_gt_cases (dotIndex - length dir) (length dots)) as [|Hgt]; auto.
    exfalso. apply Hr46.
    replace rest with (drop (length (dir ++ dots)) (dir ++ dots ++ rest))
      by (rewrite app_assoc; apply drop_app_length).
    rewrite Hp. apply In_drop_middle. rewrite length_app. lia.
  - intros H. apply in_app_or in H as [H|H]; auto.
    rewrite Forall_forall in Hd. apply list_elem_of_In, Hd in H. discriminate H.
Qed.

Lemma replace_char_map c d s :
  replace_char c [d] s = map (fun x => if eqc x c then d else x) s.
Proof.
  induction s as [|x r IH]; cbn [replace_char map]; [reflexivity|].
  rewrite IH. now destruct (eqc x c).
Qed.

Lemma bind_first_extends {A} (m : M unit) (k : M A) st st1 :
  m st = (inr tt, st1) -> extending k ->
  exists new, content (snd ((m ;; k) st)) = content st1 ++ new.
Proof.
  intros Hm Hk. unfold bind. rewrite Hm.
  destruct (Hk st1) as [(new & Hc & _) _]. eauto.
Qed.

(** X17: [PHPModule.run] first writes the line [.. module::] with the
    module name of the path of the file, whatever it writes after it.  The
    module name is the path without its extension, every slash replaced by
    a dot and every other character kept.  The extension is cut off at the
    last dot of the last component of the path, if a character other than
    a dot stands before this dot in the component; a path whose last
    component has dots at its start only is kept whole, also where a
    directory of the path has a dot. *)
Theorem module_name_spec :
  (forall py_int s st n,
     get_lineno py_int s = inr n ->
     exists more,
       content (snd (PHPModule_run py_int s st))
       = content st
         ++ tagged_lines s n (lit ".. module:: " ++ module_name (PHPModule_get_name s))
         ++ more)
  /\ (forall p,
        module_name p
        = map (fun x => if eqc x 47 then 46 else x) (splitext_root p))
  /\ (forall dir base ext,
        dir_part dir -> ~ In 47 base -> (exists c, In c base /\ c <> 46) ->
        ~ In 46 ext -> ~ In 47 ext ->
        splitext_root (dir ++ base ++ 46 :: ext) = dir ++ base)
  /\ (forall dir dots rest,
        dir_part dir -> Forall (fun c => c = 46) dots ->
        ~ In 46 rest -> ~ In 47 rest ->
        splitext_root (dir ++ dots ++ rest) = dir ++ dots ++ rest).
Proof.
  split; [|split; [|split]].
  - intros py_int s st n Hn. unfold PHPModule_run. cbv zeta.
    destruct (bind_first_extends _
                (nl s ;;
                 let! title := lift (get_opt (directive s) (lit "title") false) in
                 (if truthy title
                  then underscore py_int s (PHPModule_get_name s) 45 ;; nl s
                  else ret tt) ;;
                 append_desc py_int s ;;
                 let! members := lift (get_opt (directive s) (lit "members") false) in
                 (if is_True members then PHPModule_members py_int s else ret tt) ;;
                 nl s)
                st _
                (append_ok py_int s
                   (lit ".. module:: " ++ module_name (PHPModule_get_name s)) st n Hn))
      as [new Hnew].
    { unfold PHPModule_members. extending. }
    exists new. unfold module_name in Hnew. rewrite Hnew. cbn [content].
    now rewrite app_assoc.
  - intros p. apply replace_char_map.
  - exact splitext_root_cuts.
  - exact splitext_root_keeps.
Qed.

Lemma module_name_spec_witness :
  splitext_root (lit "src.d/" ++ lit "Greeter.class" ++ 46 :: lit "php")
  = lit "src.d/" ++ lit "Greeter.class".
Proof.
  refine (proj1 (proj2 (proj2 module_name_spec))
            (lit "src.d/") (lit "Greeter.class") (lit "php") _ _ _ _ _).
  - right. exists (lit "src.d"). reflexivity.
  - simpl. intros H. repeat (destruct H as [H|H]; [discriminate H|]). exact H.
  - exists 71. split; [now left|discriminate].
  - simpl. intros H. repeat (destruct H as [H|H]; [discriminate H|]). exact H.
  - simpl. intros H. repeat (destruct H as [H|H]; [discriminate H|]). exact H.
Defined.

(** ** Witnesses and further properties of [bs] and [run] *)

Lemma bs_injective_witness :
  bs (lit "\\App\Models") = bs (lit "App\Models").
Proof. apply (bs_injective (lit "\\App\Models") (lit "App\Models")). reflexivity. Defined.

Lemma index_braces_spec_witness :
  lit "\App\greet" ∈ index_braces braces_tree (lit "function").
Proof.
  apply (index_braces_spec braces_tree (lit "function") (lit "\App\greet")).
  exists (lit "\App\greet()"). split; [vm_compute; left; reflexivity|].
  right. reflexivity.
Defined.

Lemma run_only_extends_witness :
  Forall (fun e => blank e \/ tagged e)
         [(lit ".. module:: src.a", lit "src/a.php:0:<autophpdoc>"); ([], []);
          ([], []); ([], []); ([], [])].
Proof.
  apply (run_only_extends int_ascii (fun _ => Some (fun _ => true)) refuse_other
           (fun _ => inr (xml "file" [attribute "path" "src/a.php"] "" []))
           two_files_directive ∅).
  vm_compute. reflexivity.
Defined.

Lemma lstrip_head_not f s c r : lstrip_by f s = c :: r -> f c = false.
Proof.
  induction s as [|x s IH]; simpl; [discriminate|].
  destruct (f x) eqn:E; auto. intros [= <- _]. exact E.
Qed.

Lemma replace_char_count c s :
  count_occ N.eq_dec (replace_char c [c; c] s) c
  = (2 * count_occ N.eq_dec s c)%nat
  /\ length (replace_char c [c; c] s)
     = (length s + count_occ N.eq_dec s c)%nat.
Proof.
  induction s as [|x s [IH1 IH2]]; [split; reflexivity|].
  cbn [replace_char]. unfold eqc.
  destruct (N.eqb_spec x c) as [->|Hx]; cbn [app count_occ length].
  - destruct (N.eq_dec c c); [|congruence]. rewrite IH1, IH2. split; lia.
  - destruct (N.eq_dec x c); [congruence|]. rewrite IH1, IH2. split; lia.
Qed.

(** X18: the result of [bs] never starts with a backslash, and it has two
    backslashes for every backslash of the link after its leading ones. *)
Theorem bs_escapes (link : str) :
  (forall r, bs link <> 92 :: r)
  /\ count_occ N.eq_dec (bs link) 92
     = (2 * count_occ N.eq_dec (lstrip_by (eqc 92%N) link) 92%N)%nat
  /\ length (bs link)
     = (length (lstrip_by (eqc 92%N) link)
        + count_occ N.eq_dec (lstrip_by (eqc 92%N) link) 92%N)%nat.
Proof.
  unfold bs. split; [|apply replace_char_count].
  intros r H. destruct (lstrip_by (eqc 92) link) as [|c t] eqn:E; [discriminate|].
  apply lstrip_head_not in E. cbn [replace_char] in H.
  unfold eqc in E, H. rewrite N.eqb_sym in E. rewrite E in H.
  cbn [app] in H. injection H as -> _. discriminate E.
Qed.

Lemma filter_none {A} (P : A -> Prop) `{forall x, Decision (P x)} (l : list A) :
  (forall x, x ∈ l -> ~ P x) -> filter P l = [].
Proof.
  induction l as [|x l IH]; intros H0; [reflexivity|].
  rewrite filter_cons. destruct (decide (P x)) as [HP|_].
  - exfalso. apply (H0 x); [now left|exact HP].
  - apply IH. intros y Hy. apply H0. now right.
Qed.

(** An argument with an unfinished literal has an apostrophe, so it is
    not plain. *)
Lemma unfinished_not_plain (a : str) : unfinished a = true -> plain a = false.
Proof.
  intros Hu. destruct (plain a) eqn:Hpl; [exfalso|reflexivity].
  revert Hpl Hu. unfold plain, unfinished, apostrophes.
  induction a as [|c a IH]; [discriminate|].
  cbn [forallb]. rewrite filter_cons.
  intros [Hc Hb]%andb_true_iff.
  destruct (decide (c = 39)) as [->|_]; [discriminate Hc|].
  intros [[_ Hf]%andb_true_iff Ho]%andb_true_iff.
  apply (IH Hb). now rewrite Hf, Ho.
Qed.

Lemma xpath_files_no_match re_compile xpath_other tree a :
  no_match re_compile tree a ->
  xpath_files re_compile xpath_other tree a = inr [].
Proof.
  intros (Hp & search & Hc & Hn). unfold xpath_files. rewrite Hp, Hc.
  f_equal. apply filter_none.
  intros n Hd [Ht Hr]. rewrite (Hn n Hd Ht) in Hr. discriminate.
Qed.

Lemma arguments_loop_no_match re_compile xpath_other (render : xnode -> M unit)
    tree args more :
  Forall (no_match re_compile tree) args ->
  forall V st,
    arguments_loop re_compile xpath_other render tree (args ++ more) V st
    = arguments_loop re_compile xpath_other render tree more V st.
Proof.
  induction 1 as [|a args Ha _ IH]; intros V st; [reflexivity|].
  cbn [app arguments_loop].
  rewrite (xpath_files_no_match re_compile xpath_other tree a Ha), lift_bind.
  change (filenodes_of []) with (∅ : gmap (option str) xnode).
  rewrite map_to_list_empty. cbn [map py_sorted].
  rewrite lift_bind. cbn [paths_loop]. rewrite ret_bind.
  apply IH.
Qed.

(** X19: where every pattern is plain, is a regular expression and finds
    a match in the path of no file of the tree, the invocation renders
    nothing: it hands the empty buffer to the pipeline, raises nothing, and
    leaves the registry as it is.  Where after such patterns comes one
    with an unfinished literal, the invocation logs the error of the XML
    library and hands on no buffer; where comes a plain one that is no
    regular expression, and the tree has a file, the invocation raises
    [re.error]. *)
Theorem run_no_match_renders_nothing (py_int : str -> option Z)
    (re_compile : str -> option (str -> bool))
    (xpath_other : element -> str -> result (list xnode))
    (etree_parse : value -> result element)
    (d : AutoDirective) (seen : gset str) (v : value) (tree : element)
    (args : list str) :
  get_opt d (lit "structure_xml") false = inr v ->
  etree_parse v = inr tree ->
  Forall (no_match re_compile tree) args ->
  (arguments d = args ->
   run py_int re_compile xpath_other etree_parse d seen = (inr (Rendered []), seen))
  /\ (forall bad rest,
        arguments d = args ++ bad :: rest -> unfinished bad = true ->
        run py_int re_compile xpath_other etree_parse d seen = (inr Logged, seen))
  /\ (forall bad rest,
        arguments d = args ++ bad :: rest -> plain bad = true ->
        re_compile bad = None -> file_nodes tree <> [] ->
        run py_int re_compile xpath_other etree_parse d seen = (inl ReError, seen)).
Proof.
  intros Hv Hp Hn. split; [|split].
  - intros Ha. unfold run. rewrite Hv, Hp. cbn [arguments with_index].
    rewrite Ha, <- (app_nil_r args), arguments_loop_no_match by exact Hn.
    reflexivity.
  - intros bad rest Ha Hbad. unfold run. rewrite Hv, Hp. cbn [arguments with_index].
    rewrite Ha, arguments_loop_no_match by exact Hn.
    cbn [arguments_loop]. unfold xpath_files. rewrite Hbad.
    now rewrite (unfinished_not_plain bad Hbad).
  - intros bad rest Ha Hpl Hc Hf. unfold run. rewrite Hv, Hp.
    cbn [arguments with_index].
    rewrite Ha, arguments_loop_no_match by exact Hn.
    cbn [arguments_loop]. unfold xpath_files. rewrite Hpl, Hc.
    destruct (file_nodes tree); [contradiction|reflexivity].
Qed.

Lemma run_no_match_renders_nothing_witness :
  run int_ascii (fun _ => Some (fun _ => false)) refuse_other
      (fun _ => inr two_files) two_files_directive ∅
  = (inr (Rendered []), ∅).
Proof.
  refine (proj1 (run_no_match_renders_nothing int_ascii
                   (fun _ => Some (fun _ => false)) refuse_other
                   (fun _ => inr two_files) two_files_directive ∅
                   (VStr (lit "structure.xml")) two_files
                   [lit "src/a"; lit "src/"] _ _ _) _);
    try reflexivity.
  repeat constructor; eexists; split; try reflexivity; easy.
Defined.

(** The pattern [b'c] makes the query an invalid expression, whatever the
    engine does with other queries: the error is logged and the module
    rendered for [src/a] is not handed on. *)
Example run_unfinished_literal (xpath_other : element -> str -> result (list xnode)) :
  run int_ascii prefix_compile xpath_other (fun _ => inr two_files)
      quoted_directive ∅
  = (inr Logged, ∅).
Proof. vm_compute. reflexivity. Qed.

(** The pattern [(] is no regular expression: the invocation raises
    [re.error]. *)
Example run_no_regular_expression
    (xpath_other : element -> str -> result (list xnode)) :
  run int_ascii bracket_compile xpath_other (fun _ => inr two_files)
      bracket_directive ∅
  = (inl ReError, ∅).
Proof. vm_compute. reflexivity. Qed.
